(** * bible-guess: the BibleGuessGame component of src/bible-guess-game.js

    A shallow embedding of the component's state and methods, followed by the
    properties of the game that the specification states.

    Conventions of the model.
    - A JavaScript string is a [string]; each [ascii] stands for one UTF-16
      code unit in the range 0..255 (the Latin-1 part of Unicode), on which
      [trim] and [toLowerCase] below are exactly String.prototype.trim and
      String.prototype.toLowerCase.
    - A JavaScript number that the component counts with (score, timeLeft,
      chapter and verse numbers) is a [Z]; the value of one call of
      Math.random() is a rational [Q], and Math.floor(Math.random() * n) is
      computed exactly. The code rounds the product to binary64 first, so
      for a product next to a whole number its index can be the
      neighbouring one; it is an index of the array either way.
    - A method is a computation in the monad [Js]: it reads and writes the
      fields of [this] and either returns or throws, keeping the writes made
      before the throw.
    - A callback handed to [this.updateComplete.then] is queued in the field
      [deferred] and run by [runDeferred], after the current call stack.
      When the render of the pending update throws, the promise is rejected
      and the callback never runs; [runDeferred] stands for the updates
      whose render returns. *)

From Stdlib Require Import String Ascii List Bool ZArith QArith Qround Lia.
From Stdlib Require Import DecimalString.
Import ListNotations.

Local Open Scope string_scope.
Local Open Scope Z_scope.

(** ** Strings *)

Module JsString.

Definition code (c : ascii) : nat := nat_of_ascii c.

(** WhiteSpace and LineTerminator code units below 256: TAB, LF, VT, FF,
    CR, SPACE and NO-BREAK SPACE. *)
Definition isWhiteSpace (c : ascii) : bool :=
  let n := code c in
  ((9 <=? n) && (n <=? 13) || (n =? 32) || (n =? 160))%nat.

Fixpoint trimStart (s : string) : string :=
  match s with
  | EmptyString => EmptyString
  | String c r => if isWhiteSpace c then trimStart r else s
  end.

Fixpoint trimEnd (s : string) : string :=
  match s with
  | EmptyString => EmptyString
  | String c r =>
      match trimEnd r with
      | EmptyString => if isWhiteSpace c then EmptyString else String c EmptyString
      | r' => String c r'
      end
  end.

(** String.prototype.trim *)
Definition trim (s : string) : string := trimEnd (trimStart s).

(** Code units with a lower-case mapping: A-Z, and the Latin-1 capitals
    U+00C0..U+00DE except the multiplication sign U+00D7. *)
Definition isUpper (c : ascii) : bool :=
  let n := code c in
  ((65 <=? n) && (n <=? 90)
   || (192 <=? n) && (n <=? 222) && negb (n =? 215))%nat.

Definition lowerChar (c : ascii) : ascii :=
  if isUpper c then ascii_of_nat (code c + 32) else c.

(** String.prototype.toLowerCase *)
Fixpoint toLowerCase (s : string) : string :=
  match s with
  | EmptyString => EmptyString
  | String c r => String (lowerChar c) (toLowerCase r)
  end.

(** The truthiness of a string: only the empty string is falsy. *)
Definition truthy (s : string) : bool :=
  match s with EmptyString => false | _ => true end.

End JsString.

(** ** Values *)

(** The values that flow through the component: [undefined], strings, and
    plain objects (the entries of [api.books], a foreign global). *)
Inductive jsval : Type :=
| Undefined
| Str (s : string)
| Obj (props : properties)
with properties : Type :=
| NoProps
| Field (key : string) (value : jsval) (rest : properties).

Fixpoint lookupProp (k : string) (props : properties) : jsval :=
  match props with
  | NoProps => Undefined
  | Field k' v rest => if String.eqb k k' then v else lookupProp k rest
  end.

(** ToString, as applied by [+] on strings and by template literals. *)
Definition toString (v : jsval) : string :=
  match v with
  | Undefined => "undefined"
  | Str s => s
  | Obj _ => "[object Object]"
  end.

(** A verse object; a field that the object does not have reads as
    [Undefined] (or [None]). *)
Record verse : Type := mkVerse {
  text : jsval;
  book : jsval;
  chapterNumber : option Z;
  verseNumber : option Z;
  language : option string
}.

(** The object literal [{}]. *)
Definition emptyObject : verse :=
  mkVerse Undefined Undefined None None None.

(** [feedbackStatus]: the string the property holds. *)
Inductive status : Type := StatusNone | Correct | Wrong | Skipped | Ended.

Definition statusString (st : status) : string :=
  match st with
  | StatusNone => ""
  | Correct => "correct"
  | Wrong => "wrong"
  | Skipped => "skipped"
  | Ended => "ended"
  end.

(** [feedbackMessage]: which literal or template the property was built
    from, with the interpolated value. *)
Inductive message : Type :=
| MsgEmpty                      (* '' *)
| MsgCorrect                    (* 'Correct!' after the check mark *)
| MsgWrong (correctBook : jsval)    (* `Wrong! Correct book: ${book}` *)
| MsgSkipped (correctBook : jsval)  (* `Skipped! Correct book: ${book}` *)
| MsgTimeUp (finalScore : Z).       (* `Time's up! Final score: ${score}` *)

Inductive error : Type := TypeError | ReferenceError | SyntaxError.

(** A callback passed to [this.updateComplete.then]. *)
Inductive callback : Type :=
| ClearInput       (* nextVerse: empties the #guess input element *)
| RevealFeedback.  (* submitGuess: feedbackVisible = true *)

Inductive logEntry : Type :=
| LogCurrentVerse (v : option verse)   (* console.log("this.currentVerse", ...) *)
| LogLoadFailed (e : error).           (* console.error('Failed to load verses:', err) *)

(** ** The component *)

Record state : Type := mkState {
  verses : list verse;
  currentVerse : option verse;       (* None: undefined *)
  score : Z;
  timeLeft : Z;
  feedbackVisible : bool;
  feedbackStatus : status;
  feedbackMessage : message;
  gameEnded : bool;
  timerRunning : bool;               (* the interval of _timerInterval is active *)
  deferred : list callback;          (* pending updateComplete callbacks *)
  console : list logEntry            (* what was logged, latest first *)
}.

Definition set_verses (x : list verse) (s : state) : state :=
  mkState x (currentVerse s) (score s) (timeLeft s) (feedbackVisible s)
    (feedbackStatus s) (feedbackMessage s) (gameEnded s) (timerRunning s)
    (deferred s) (console s).
Definition set_currentVerse (x : option verse) (s : state) : state :=
  mkState (verses s) x (score s) (timeLeft s) (feedbackVisible s)
    (feedbackStatus s) (feedbackMessage s) (gameEnded s) (timerRunning s)
    (deferred s) (console s).
Definition set_score (x : Z) (s : state) : state :=
  mkState (verses s) (currentVerse s) x (timeLeft s) (feedbackVisible s)
    (feedbackStatus s) (feedbackMessage s) (gameEnded s) (timerRunning s)
    (deferred s) (console s).
Definition set_timeLeft (x : Z) (s : state) : state :=
  mkState (verses s) (currentVerse s) (score s) x (feedbackVisible s)
    (feedbackStatus s) (feedbackMessage s) (gameEnded s) (timerRunning s)
    (deferred s) (console s).
Definition set_feedbackVisible (x : bool) (s : state) : state :=
  mkState (verses s) (currentVerse s) (score s) (timeLeft s) x
    (feedbackStatus s) (feedbackMessage s) (gameEnded s) (timerRunning s)
    (deferred s) (console s).
Definition set_feedbackStatus (x : status) (s : state) : state :=
  mkState (verses s) (currentVerse s) (score s) (timeLeft s) (feedbackVisible s)
    x (feedbackMessage s) (gameEnded s) (timerRunning s)
    (deferred s) (console s).
Definition set_feedbackMessage (x : message) (s : state) : state :=
  mkState (verses s) (currentVerse s) (score s) (timeLeft s) (feedbackVisible s)
    (feedbackStatus s) x (gameEnded s) (timerRunning s)
    (deferred s) (console s).
Definition set_gameEnded (x : bool) (s : state) : state :=
  mkState (verses s) (currentVerse s) (score s) (timeLeft s) (feedbackVisible s)
    (feedbackStatus s) (feedbackMessage s) x (timerRunning s)
    (deferred s) (console s).
Definition set_timerRunning (x : bool) (s : state) : state :=
  mkState (verses s) (currentVerse s) (score s) (timeLeft s) (feedbackVisible s)
    (feedbackStatus s) (feedbackMessage s) (gameEnded s) x
    (deferred s) (console s).
Definition set_deferred (x : list callback) (s : state) : state :=
  mkState (verses s) (currentVerse s) (score s) (timeLeft s) (feedbackVisible s)
    (feedbackStatus s) (feedbackMessage s) (gameEnded s) (timerRunning s)
    x (console s).
Definition set_console (x : list logEntry) (s : state) : state :=
  mkState (verses s) (currentVerse s) (score s) (timeLeft s) (feedbackVisible s)
    (feedbackStatus s) (feedbackMessage s) (gameEnded s) (timerRunning s)
    (deferred s) x.

(** ** The monad of methods: state and exceptions *)

Inductive outcome (A : Type) : Type :=
| Returned (a : A) (s : state)
| Thrown (e : error) (s : state).
Arguments Returned {A} a s.
Arguments Thrown {A} e s.

Definition Js (A : Type) : Type := state -> outcome A.

Definition ret {A} (a : A) : Js A := fun s => Returned a s.
Definition throw {A} (e : error) : Js A := fun s => Thrown e s.
Definition bind {A B} (m : Js A) (k : A -> Js B) : Js B :=
  fun s => match m s with
           | Returned a s' => k a s'
           | Thrown e s' => Thrown e s'
           end.
Definition this {A} (f : state -> A) : Js A := fun s => Returned (f s) s.
Definition assign (f : state -> state) : Js unit := fun s => Returned tt (f s).

(** [try m catch (err) { h err }] *)
Definition tryCatch {A} (m : Js A) (h : error -> Js A) : Js A :=
  fun s => match m s with
           | Returned a s' => Returned a s'
           | Thrown e s' => h e s'
           end.

Declare Scope js_scope.
Delimit Scope js_scope with js.
Notation "x <- m ;; k" := (bind m (fun x => k))
  (at level 61, m at next level, right associativity) : js_scope.
Notation "m ;; k" := (bind m (fun _ => k))
  (at level 61, right associativity) : js_scope.
Local Open Scope js_scope.

(** The state a call leaves behind, whether it returned or threw. *)
Definition stateAfter {A} (o : outcome A) : state :=
  match o with
  | Returned _ s => s
  | Thrown _ s => s
  end.

Definition threw {A} (o : outcome A) : option error :=
  match o with
  | Returned _ _ => None
  | Thrown e _ => Some e
  end.

(** Property reads [v.k]: reading a property of [undefined] throws; a
    string has none of the properties the component reads (id, en). *)
Definition getProp (v : jsval) (k : string) : Js jsval :=
  match v with
  | Undefined => throw TypeError
  | Str _ => ret Undefined
  | Obj props => ret (lookupProp k props)
  end.

(** [v.toLowerCase()]: only a string has the method. *)
Definition callToLowerCase (v : jsval) : Js string :=
  match v with
  | Str s => ret (JsString.toLowerCase s)
  | _ => throw TypeError
  end.

(** [Math.floor(r * n)] for [r] the value of Math.random(). *)
Definition randomIndex (r : Q) (n : nat) : Z :=
  Qfloor (r * inject_Z (Z.of_nat n)).

(** Array read [a[i]]; [None] is [undefined]. *)
Definition arrayGet {A} (a : list A) (i : Z) : option A :=
  if i <? 0 then None else nth_error a (Z.to_nat i).

Definition logged (e : logEntry) (s : state) : state :=
  set_console (e :: console s) s.

(** [this.updateComplete.then(cb)] *)
Definition whenUpdateComplete (cb : callback) : Js unit :=
  assign (fun s => set_deferred (deferred s ++ [cb]) s).

(** [this.currentVerse.book] *)
Definition currentVerseBook : Js jsval :=
  cv <- this currentVerse ;;
  match cv with
  | None => throw TypeError
  | Some v => ret (book v)
  end.

(** *** constructor *)
Definition constructor : state :=
  {| verses := [];
     score := 0;
     timeLeft := 180;
     feedbackVisible := false;
     feedbackStatus := StatusNone;
     feedbackMessage := MsgEmpty;
     gameEnded := false;
     currentVerse := Some emptyObject;
     timerRunning := false;
     deferred := [];
     console := [] |}.

(** *** loadVerses

    What the method takes from outside the component: [books] is
    [api.books] of bible-api.js; [network url] is what fetching [url] and
    reading the body as JSON gives; [globalThis] is the global object, where
    an identifier with no lexical binding is looked up; [r1] and [r2] are
    the two values of Math.random(). *)

Inductive response : Type :=
| FetchRejects                          (* fetch(url) rejects *)
| JsonRejects                           (* response.json() rejects *)
| Document (chapters : option (list (list string))).
                                        (* the parsed body; None: it has no chapters *)

Definition fetchJson (network : string -> response) (url : string)
  : Js (option (list (list string))) :=
  match network url with
  | FetchRejects => throw TypeError
  | JsonRejects => throw SyntaxError
  | Document chapters => ret chapters
  end.

Fixpoint mapWithIndex {A B} (f : A -> Z -> B) (i : Z) (l : list A) : list B :=
  match l with
  | [] => []
  | x :: r => f x i :: mapWithIndex f (i + 1) r
  end.

Definition bookUrl (lang : string) (id : jsval) : string :=
  "https://raw.githubusercontent.com/biensurerodezee/bible/main/"
  ++ lang ++ "/" ++ toString id ++ "/" ++ toString id ++ ".json".

(** The body of the [try] block. *)
Definition loadVersesTry (books : list jsval) (network : string -> response)
  (r1 r2 : Q) : Js unit :=
  let lang := "en" in
  let randomBB :=
    match arrayGet books (randomIndex r1 (length books)) with
    | Some b => b
    | None => Undefined
    end in
  id <- getProp randomBB "id" ;;
  data <- fetchJson network (bookUrl lang id) ;;
  match data with
  | None => throw TypeError             (* data.chapters.length *)
  | Some chapters =>
      let chapterIndex := randomIndex r2 (length chapters) in
      match arrayGet chapters chapterIndex with
      | None => throw TypeError         (* chapter.map *)
      | Some chapter =>
          name <- getProp randomBB lang ;;
          assign (set_verses
            (mapWithIndex
               (fun verse verseIndex =>
                  {| text := Str verse;
                     book := name;
                     chapterNumber := Some (chapterIndex + 1);
                     verseNumber := Some (verseIndex + 1);
                     language := Some lang |})
               0 chapter))
      end
  end.

(** The body of the [catch (err)] block. [randomBB] is declared with
    [const] inside the [try] block, whose scope has ended: the identifier
    has no lexical binding here and is looked up on the global object. *)
Definition loadVersesCatch (globalThis : string -> option jsval) (err : error)
  : Js unit :=
  assign (logged (LogLoadFailed err)) ;;
  randomBB <- match globalThis "randomBB" with
              | Some v => ret v
              | None => throw ReferenceError
              end ;;
  id <- getProp randomBB "id" ;;
  assign (set_verses
    [ {| text := Str "Error, could not find this book id on the API:";
         book := id;
         chapterNumber := None;
         verseNumber := None;
         language := None |} ]).

Definition loadVerses (books : list jsval) (globalThis : string -> option jsval)
  (network : string -> response) (r1 r2 : Q) : Js unit :=
  tryCatch (loadVersesTry books network r1 r2) (loadVersesCatch globalThis).

(** *** nextVerse *)
Definition nextVerse (r : Q) : Js unit :=
  assign (set_feedbackVisible false) ;;
  assign (set_feedbackStatus StatusNone) ;;
  assign (set_feedbackMessage MsgEmpty) ;;
  vs <- this verses ;;
  assign (set_currentVerse (arrayGet vs (randomIndex r (length vs)))) ;;
  cv <- this currentVerse ;;
  assign (logged (LogCurrentVerse cv)) ;;
  whenUpdateComplete ClearInput.

(** *** endGame *)
Definition endGame : Js unit :=
  assign (set_gameEnded true) ;;
  assign (set_feedbackStatus Ended) ;;
  sc <- this score ;;
  assign (set_feedbackMessage (MsgTimeUp sc)) ;;
  assign (set_feedbackVisible true).

(** *** startGame, and the callback it gives to setInterval *)
Definition timerCallback : Js unit :=
  t <- this timeLeft ;;
  if 0 <? t then
    assign (set_timeLeft (t - 1))
  else
    assign (set_timerRunning false) ;;      (* clearInterval *)
    endGame.

Definition startGame (r : Q) : Js unit :=
  nextVerse r ;;
  assign (set_timerRunning true).

(** *** submitGuess

    [input] is what [this.querySelector('#guess')] finds: [None] when there
    is no such element, otherwise the element's value. *)
Definition submitGuess (input : option string) : Js unit :=
  visible <- this feedbackVisible ;;
  ended <- this gameEnded ;;
  if visible || ended then ret tt else
  match option_map JsString.trim input with      (* input?.value.trim() *)
  | None => ret tt
  | Some guess =>
      if negb (JsString.truthy guess) then ret tt else
      b <- currentVerseBook ;;
      lowered <- callToLowerCase b ;;
      (if String.eqb (JsString.toLowerCase guess) lowered then
         sc <- this score ;;
         assign (set_score (sc + 1)) ;;
         assign (set_feedbackStatus Correct) ;;
         assign (set_feedbackMessage MsgCorrect)
       else
         assign (set_feedbackStatus Wrong) ;;
         b' <- currentVerseBook ;;
         assign (set_feedbackMessage (MsgWrong b'))) ;;
      whenUpdateComplete RevealFeedback
  end.

(** *** skipVerse *)
Definition skipVerse : Js unit :=
  visible <- this feedbackVisible ;;
  ended <- this gameEnded ;;
  if visible || ended then ret tt else
  assign (set_feedbackStatus Skipped) ;;
  b <- currentVerseBook ;;
  assign (set_feedbackMessage (MsgSkipped b)) ;;
  assign (set_feedbackVisible true).

(** *** connectedCallback *)
Definition connectedCallback (books : list jsval)
  (globalThis : string -> option jsval) (network : string -> response)
  (r1 r2 r3 : Q) : Js unit :=
  loadVerses books globalThis network r1 r2 ;;
  startGame r3.


(** *** updated *)
Definition updated (currentVerseChanged : bool) (books : list jsval)
  (globalThis : string -> option jsval) (network : string -> response)
  (r1 r2 : Q) : Js unit :=
  if currentVerseChanged then loadVerses books globalThis network r1 r2
  else ret tt.

(** *** The callbacks of updateComplete *)
Definition isReveal (cb : callback) : bool :=
  match cb with RevealFeedback => true | ClearInput => false end.

Definition runCallback (cb : callback) : Js unit :=
  match cb with
  | ClearInput => ret tt                 (* input.value = '': no field of this *)
  | RevealFeedback => assign (set_feedbackVisible true)
  end.

Fixpoint runCallbacks (cbs : list callback) : Js unit :=
  match cbs with
  | [] => ret tt
  | cb :: rest => runCallback cb ;; runCallbacks rest
  end.

Definition runDeferred : Js unit :=
  cbs <- this deferred ;;
  assign (set_deferred []) ;;
  runCallbacks cbs.

(** ** Runs of the component *)

(** The component once connectedCallback has loaded [pool] and started the
    game, [r] being the value of Math.random() in the first nextVerse. *)
Definition started (pool : list verse) (r : Q) : state :=
  stateAfter (startGame r (set_verses pool constructor)).

(** What can happen to a mounted component, one event at a time. *)
Inductive event : Type :=
| Tick                                   (* the interval fires *)
| NextVerse (r : Q)
| SubmitGuess (input : option string)
| SkipVerse
| EndGame
| UpdateComplete                         (* the pending callbacks run *)
| LoadVerses (network : string -> response) (r1 r2 : Q).
                                         (* a loadVerses of updated() completes *)

Definition isTick (e : event) : bool :=
  match e with Tick => true | _ => false end.

Definition isEndGame (e : event) : bool :=
  match e with EndGame => true | _ => false end.

Definition ticks (es : list event) : nat := length (filter isTick es).

(** The timer callback is the only caller of endGame. *)
Definition endedByTimerOnly (es : list event) : Prop :=
  forallb (fun e => negb (isEndGame e)) es = true.

(** The two halves of the invariant of the round state. *)
Definition feedbackConsistent (s : state) : Prop :=
  feedbackVisible s = true -> feedbackStatus s <> StatusNone.

Definition endConsistent (s : state) : Prop :=
  gameEnded s = true <-> feedbackStatus s = Ended /\ timeLeft s = 0.

Definition roundInvariant (s : state) : Prop :=
  deferred s = [] /\ 0 <= timeLeft s
  /\ (feedbackStatus s = Ended -> gameEnded s = true)
  /\ feedbackConsistent s /\ endConsistent s.

(** An event the component can meet while it follows its own protocol:
    nextVerse is not called once the game has ended (the view renders no
    Next button for status 'ended'), and endGame is called at time 0 only
    (its one call site is the branch of the timer callback that has found
    timeLeft not above 0). *)
Definition permitted (e : event) (s : state) : bool :=
  match e with
  | NextVerse _ => negb (gameEnded s)
  | EndGame => timeLeft s =? 0
  | _ => true
  end.

Section Runs.

Variable books : list jsval.             (* api.books *)
Variable globalThis : string -> option jsval.

Definition step (e : event) (s : state) : state :=
  match e with
  | Tick => if timerRunning s then stateAfter (timerCallback s) else s
  | NextVerse r => stateAfter (nextVerse r s)
  | SubmitGuess input => stateAfter (submitGuess input s)
  | SkipVerse => stateAfter (skipVerse s)
  | EndGame => stateAfter (endGame s)
  | UpdateComplete => stateAfter (runDeferred s)
  | LoadVerses network r1 r2 =>
      stateAfter (loadVerses books globalThis network r1 r2 s)
  end.

Fixpoint run (es : list event) (s : state) : state :=
  match es with
  | [] => s
  | e :: rest => run rest (step e s)
  end.

(** Every state that some sequence of events leads to from a started game. *)
Definition reachable (s : state) : Prop :=
  exists pool r es, s = run es (started pool r).

(** An event handler runs to completion, and the callbacks it queued run
    before the next event is handled. *)
Definition task (e : event) (s : state) : state :=
  stateAfter (runDeferred (step e s)).

Inductive reachableByTasks : state -> Prop :=
| reach_started pool r :
    reachableByTasks (stateAfter (runDeferred (started pool r)))
| reach_task s e :
    reachableByTasks s -> permitted e s = true -> reachableByTasks (task e s).

End Runs.

(** ** Equality up to letter case, as the specification words it

    Two strings are equal up to letter case when they have the same length
    and, position by position, the same code unit or the capital and the
    small form of one letter. *)

Inductive sameLetter : ascii -> ascii -> Prop :=
| same_char c : sameLetter c c
| capital_small c :
    JsString.isUpper c = true ->
    sameLetter c (ascii_of_nat (JsString.code c + 32))
| small_capital c :
    JsString.isUpper c = true ->
    sameLetter (ascii_of_nat (JsString.code c + 32)) c.

Inductive equalUpToCase : string -> string -> Prop :=
| upto_empty : equalUpToCase EmptyString EmptyString
| upto_char c d a b :
    sameLetter c d -> equalUpToCase a b ->
    equalUpToCase (String c a) (String d b).

(** A string of white space only. *)
Fixpoint allWhiteSpace (s : string) : bool :=
  match s with
  | EmptyString => true
  | String c r => JsString.isWhiteSpace c && allWhiteSpace r
  end.

(** ** The view

    [render] fills the slots of the template from the fields of [this]; a
    [view] holds what goes into each slot and which of the conditional
    blocks are rendered. *)

(** Number.prototype.toString for an integer. *)
Definition numberToString (z : Z) : string :=
  NilZero.string_of_int (Z.to_int z).

Fixpoint prepend (n : nat) (c : ascii) (s : string) : string :=
  match n with
  | O => s
  | S k => String c (prepend k c s)
  end.

(** [s.padStart(target, filler)] for a filler of one code unit. *)
Definition padStart (target : nat) (filler : ascii) (s : string) : string :=
  prepend (target - String.length s) filler s.

(** [Math.floor(this.timeLeft / 60).toString().padStart(2, '0')] *)
Definition timerMinutes (t : Z) : string :=
  padStart 2 "0" (numberToString (t / 60)).

(** [(this.timeLeft % 60).toString().padStart(2, '0')] *)
Definition timerSeconds (t : Z) : string :=
  padStart 2 "0" (numberToString (Z.rem t 60)).

Definition feedbackClass (st : status) : string :=
  match st with
  | Correct => "border-green-500 text-green-600"
  | Wrong | Skipped => "border-red-500 text-red-600"
  | StatusNone | Ended => ""
  end.

(** Truthiness of a number field and of a value. *)
Definition truthyNumber (n : option Z) : bool :=
  match n with
  | Some z => negb (z =? 0)
  | None => false
  end.

Definition truthyValue (v : jsval) : bool :=
  match v with
  | Undefined => false
  | Str s => JsString.truthy s
  | Obj _ => true
  end.

Definition numberSlot (n : option Z) : string :=
  match n with
  | Some z => if truthyNumber n then numberToString z else "."
  | None => "."
  end.

Definition doubleQuote : string := String (ascii_of_nat 34) EmptyString.

Definition textSlot (v : jsval) : string :=
  if truthyValue v then doubleQuote ++ toString v ++ doubleQuote
  else "Loading verse...".

Record overlay : Type := mkOverlay {
  overlayClass : string;                 (* the class the overlay gets *)
  overlayMessage : message;
  nextButton : bool                      (* the Next button is rendered *)
}.

Record view : Type := mkView {
  timerText : string;                    (* #timer *)
  chapterText : string;                  (* #verse: chapter, before the colon *)
  verseText : string;                    (* #verse: verse, after the colon *)
  quoteText : string;                    (* #verse: the text *)
  guessInput : bool;                     (* the input and Submit are rendered *)
  scoreText : string;                    (* #score *)
  feedbackOverlay : option overlay       (* #feedback *)
}.

(** *** render *)
Definition render : Js view :=
  t <- this timeLeft ;;
  let minutes := timerMinutes t in
  let seconds := timerSeconds t in
  st <- this feedbackStatus ;;
  cv <- this currentVerse ;;
  match cv with
  | None => throw TypeError              (* this.currentVerse.chapterNumber *)
  | Some v =>
      visible <- this feedbackVisible ;;
      ended <- this gameEnded ;;
      sc <- this score ;;
      msg <- this feedbackMessage ;;
      ret {| timerText := minutes ++ ":" ++ seconds;
             chapterText := numberSlot (chapterNumber v);
             verseText := numberSlot (verseNumber v);
             quoteText := textSlot (text v);
             guessInput := negb visible && negb ended;
             scoreText := "Correct: " ++ numberToString sc;
             feedbackOverlay :=
               if visible then
                 Some {| overlayClass := feedbackClass st;
                         overlayMessage := msg;
                         nextButton :=
                           negb (String.eqb (statusString st) "ended") |}
               else None |}
  end.

(** Reading a timer text back: the number before the colon times 60 plus
    the number after it. *)
Fixpoint splitAtColon (s : string) : option (string * string) :=
  match s with
  | EmptyString => None
  | String c r =>
      if Ascii.eqb c ":" then Some (EmptyString, r)
      else match splitAtColon r with
           | Some (a, b) => Some (String c a, b)
           | None => None
           end
  end.

Definition readNumber (s : string) : option Z :=
  option_map Z.of_int (NilZero.int_of_string s).

Definition readTimer (s : string) : option Z :=
  match splitAtColon s with
  | Some (m, sec) =>
      match readNumber m, readNumber sec with
      | Some a, Some b => Some (a * 60 + b)
      | _, _ => None
      end
  | None => None
  end.

(** The timer text of [t] has five code units and reads back as [t]. *)
Definition timerReadsBack (t : Z) : bool :=
  (String.length (timerMinutes t ++ ":" ++ timerSeconds t) =? 5)%nat
  && match readTimer (timerMinutes t ++ ":" ++ timerSeconds t) with
     | Some t' => t' =? t
     | None => false
     end.

(** ** What a run throws, and what it is made of *)

Definition isSubmitGuess (e : event) : bool :=
  match e with SubmitGuess _ => true | _ => false end.

Definition submits (es : list event) : nat := length (filter isSubmitGuess es).

(** A pool the game can be played on: it has a verse, and every verse
    names its book by a string. *)
Definition playable (pool : list verse) : Prop :=
  pool <> [] /\ forall v, In v pool -> exists b, book v = Str b.

(** The message goes with the status: the empty message with no status,
    the verdict on a guess with the book of the verse on display, the
    final score with the score the component has. *)
Definition says (s : state) : Prop :=
  match feedbackStatus s with
  | StatusNone => feedbackMessage s = MsgEmpty
  | Correct =>
      feedbackMessage s = MsgCorrect
      /\ exists v b, currentVerse s = Some v /\ book v = Str b
  | Wrong =>
      exists v, currentVerse s = Some v /\ feedbackMessage s = MsgWrong (book v)
  | Skipped =>
      match currentVerse s with
      | Some v => feedbackMessage s = MsgSkipped (book v)
      | None => True
      end
  | Ended => feedbackMessage s = MsgTimeUp (score s) /\ gameEnded s = true
  end.

(** The pool is [pool] and the current verse is one of its verses. *)
Definition drawnFrom (pool : list verse) (s : state) : Prop :=
  verses s = pool /\ exists v, currentVerse s = Some v /\ In v pool.

(** An event of a game on a pool that stays as it is: Math.random() is in
    its range and no load replaces the pool. *)
Definition onFixedPool (e : event) : Prop :=
  match e with
  | NextVerse r => (0 <= r)%Q /\ (r < 1)%Q
  | LoadVerses _ _ _ => False
  | _ => True
  end.

Section Throws.

Variable books : list jsval.
Variable globalThis : string -> option jsval.

(** The exception that handling [e] in [s] ends with, if any. *)
Definition thrownBy (e : event) (s : state) : option error :=
  match e with
  | Tick => if timerRunning s then threw (timerCallback s) else None
  | NextVerse r => threw (nextVerse r s)
  | SubmitGuess input => threw (submitGuess input s)
  | SkipVerse => threw (skipVerse s)
  | EndGame => threw (endGame s)
  | UpdateComplete => threw (runDeferred s)
  | LoadVerses network r1 r2 =>
      threw (loadVerses books globalThis network r1 r2 s)
  end.

(** The exceptions of a run, and of the render after each of its events. *)
Fixpoint exceptions (es : list event) (s : state) : list error :=
  match es with
  | [] => []
  | e :: rest =>
      let s' := step books globalThis e s in
      match thrownBy e s with Some x => [x] | None => [] end
      ++ match threw (render s') with Some x => [x] | None => [] end
      ++ exceptions rest s'
  end.

End Throws.

(** ** Sample data *)

Definition genesis_1_1 : verse :=
  {| text := Str "In the beginning...";
     book := Str "Genesis";
     chapterNumber := Some 1;
     verseNumber := Some 1;
     language := Some "en" |}.

Definition sampleBooks : list jsval :=
  [ Obj (Field "id" (Str "GEN") (Field "en" (Str "Genesis") NoProps));
    Obj (Field "id" (Str "EXO") (Field "en" (Str "Exodus") NoProps)) ].

Definition noGlobals : string -> option jsval := fun _ => None.

Definition offline : string -> response := fun _ => FetchRejects.

Definition sampleNetwork : string -> response :=
  fun url =>
    if String.eqb url
         "https://raw.githubusercontent.com/biensurerodezee/bible/main/en/GEN/GEN.json"
    then Document (Some [["In the beginning..."; "And the earth was..."]])
    else JsonRejects.

(** ** Running the model on the scenarios of the specification *)

Example load_sample :
  verses (stateAfter (loadVerses sampleBooks noGlobals sampleNetwork 0 0 constructor))
  = [ genesis_1_1;
      {| text := Str "And the earth was..."; book := Str "Genesis";
         chapterNumber := Some 1; verseNumber := Some 2; language := Some "en" |} ].
Proof. reflexivity. Qed.

Example guess_genesis :
  let s := stateAfter (submitGuess (Some "Genesis") (started [genesis_1_1] 0)) in
  feedbackStatus s = Correct /\ score s = 1 /\ feedbackMessage s = MsgCorrect
  /\ feedbackVisible s = false
  /\ feedbackVisible (stateAfter (runDeferred s)) = true.
Proof. repeat split. Qed.

Example guess_exodus :
  let s := stateAfter (submitGuess (Some "Exodus") (started [genesis_1_1] 0)) in
  feedbackStatus s = Wrong /\ score s = 0
  /\ feedbackMessage s = MsgWrong (Str "Genesis").
Proof. repeat split. Qed.

Example skip_genesis :
  let s := stateAfter (skipVerse (started [genesis_1_1] 0)) in
  feedbackStatus s = Skipped /\ score s = 0
  /\ feedbackMessage s = MsgSkipped (Str "Genesis")
  /\ feedbackVisible s = true.
Proof. repeat split. Qed.

Example guess_any_case :
  map (fun g => feedbackStatus
                  (stateAfter (submitGuess (Some g) (started [genesis_1_1] 0))))
      ["genesis"; "GENESIS"; "Genesis"; "  gEnEsIs  "]
  = [Correct; Correct; Correct; Correct].
Proof. reflexivity. Qed.

(** ** Strings: trimming and case *)

Lemma isUpper_spec (c : ascii) :
  JsString.isUpper c = true <->
  (65 <= JsString.code c <= 90
   \/ (192 <= JsString.code c <= 222 /\ JsString.code c <> 215))%nat.
Proof.
  unfold JsString.isUpper.
  rewrite orb_true_iff, !andb_true_iff, negb_true_iff, !Nat.leb_le, Nat.eqb_neq.
  tauto.
Qed.

Lemma code_small (c : ascii) :
  JsString.isUpper c = true ->
  JsString.code (ascii_of_nat (JsString.code c + 32)) = (JsString.code c + 32)%nat.
Proof.
  intros H. apply isUpper_spec in H.
  unfold JsString.code at 1. apply nat_ascii_embedding. lia.
Qed.

Lemma small_not_upper (c : ascii) :
  JsString.isUpper c = true ->
  JsString.isUpper (ascii_of_nat (JsString.code c + 32)) = false.
Proof.
  intros H. apply not_true_is_false. intros U.
  apply isUpper_spec in U. rewrite (code_small c H) in U.
  apply isUpper_spec in H. lia.
Qed.

Lemma code_inj (c d : ascii) : JsString.code c = JsString.code d -> c = d.
Proof.
  unfold JsString.code. intros H.
  rewrite <- (ascii_nat_embedding c), <- (ascii_nat_embedding d).
  now rewrite H.
Qed.

Lemma lowerChar_sameLetter (c d : ascii) :
  JsString.lowerChar c = JsString.lowerChar d <-> sameLetter c d.
Proof.
  split.
  - unfold JsString.lowerChar.
    destruct (JsString.isUpper c) eqn:Uc, (JsString.isUpper d) eqn:Ud; intros E.
    + assert (c = d) as ->; [ | constructor ].
      apply code_inj. apply (f_equal JsString.code) in E.
      rewrite !code_small in E by assumption. lia.
    + subst d. now constructor.
    + subst c. now constructor.
    + subst d. constructor.
  - intros [c' | c' U | c' U]; unfold JsString.lowerChar.
    + reflexivity.
    + now rewrite U, (small_not_upper c' U).
    + now rewrite U, (small_not_upper c' U).
Qed.

(** The comparison the code makes is equality up to letter case. *)
Lemma toLowerCase_equalUpToCase (a b : string) :
  JsString.toLowerCase a = JsString.toLowerCase b <-> equalUpToCase a b.
Proof.
  revert b. induction a as [ | c a IH]; intros [ | d b]; cbn.
  - split; [ constructor | reflexivity ].
  - split; [ discriminate | inversion 1 ].
  - split; [ discriminate | inversion 1 ].
  - split.
    + intros E. injection E as E1 E2.
      constructor; [ now apply lowerChar_sameLetter | now apply IH ].
    + inversion 1; subst. f_equal; [ now apply lowerChar_sameLetter | now apply IH ].
Qed.

Lemma trimStart_empty (s : string) :
  JsString.trimStart s = EmptyString <-> allWhiteSpace s = true.
Proof.
  induction s as [ | c s IH]; cbn; [ tauto | ].
  destruct (JsString.isWhiteSpace c); cbn; [ exact IH | ].
  split; discriminate.
Qed.

Lemma trimEnd_empty (s : string) :
  JsString.trimEnd s = EmptyString <-> allWhiteSpace s = true.
Proof.
  induction s as [ | c s IH]; cbn; [ tauto | ].
  destruct (JsString.trimEnd s) eqn:E.
  - destruct (JsString.isWhiteSpace c); cbn.
    + split; [ intros _; now apply IH | reflexivity ].
    + split; discriminate.
  - split; [ discriminate | ].
    rewrite andb_true_iff. intros [_ W]. apply IH in W. discriminate.
Qed.

Lemma allWhiteSpace_trimStart (s : string) :
  allWhiteSpace (JsString.trimStart s) = true -> allWhiteSpace s = true.
Proof.
  induction s as [ | c s IH]; cbn; [ tauto | ].
  destruct (JsString.isWhiteSpace c) eqn:W; cbn; [ exact IH | ].
  now rewrite W.
Qed.

(** Trimming leaves nothing exactly when the string is white space only. *)
Lemma trim_empty (s : string) :
  JsString.trim s = EmptyString <-> allWhiteSpace s = true.
Proof.
  unfold JsString.trim. rewrite trimEnd_empty. split.
  - apply allWhiteSpace_trimStart.
  - intros W. apply trimStart_empty in W. now rewrite W.
Qed.

(** ** Random selection *)

Lemma randomIndex_range (r : Q) (n : nat) :
  (0 <= r)%Q -> (r < 1)%Q -> (0 < n)%nat ->
  0 <= randomIndex r n < Z.of_nat n.
Proof.
  intros H0 H1 Hn. unfold randomIndex.
  assert (Hpos : (0 < inject_Z (Z.of_nat n))%Q).
  { change 0%Q with (inject_Z 0). rewrite <- Zlt_Qlt. lia. }
  split.
  - change 0 with (Qfloor 0). apply Qfloor_resp_le.
    apply Qmult_le_0_compat; [ exact H0 | now apply Qlt_le_weak ].
  - rewrite Zlt_Qlt.
    apply Qle_lt_trans with (r * inject_Z (Z.of_nat n))%Q; [ apply Qfloor_le | ].
    setoid_replace (inject_Z (Z.of_nat n)) with (1 * inject_Z (Z.of_nat n))%Q at 2
      by ring.
    now apply Qmult_lt_compat_r.
Qed.

Lemma randomIndex_empty (r : Q) : randomIndex r 0 = 0.
Proof.
  unfold randomIndex. cbn [length Z.of_nat].
  assert (E : (r * inject_Z 0 == 0)%Q) by ring.
  rewrite E. reflexivity.
Qed.

Lemma arrayGet_in_range {A} (a : list A) (i : Z) :
  0 <= i < Z.of_nat (length a) -> exists x, arrayGet a i = Some x /\ In x a.
Proof.
  intros H. unfold arrayGet.
  destruct (Z.ltb_spec i 0) as [ | _]; [ lia | ].
  destruct (nth_error a (Z.to_nat i)) as [x | ] eqn:E.
  - exists x. split; [ reflexivity | ]. now apply nth_error_In in E.
  - apply nth_error_None in E. lia.
Qed.

(** ** The methods, one by one *)

Ltac js_unfold :=
  unfold submitGuess, skipVerse, nextVerse, endGame, timerCallback, startGame,
    runDeferred, currentVerseBook, callToLowerCase, whenUpdateComplete,
    bind, this, assign, ret, throw, logged in *.

Lemma nextVerse_returns (r : Q) (s : state) :
  nextVerse r s =
  Returned tt
    {| verses := verses s;
       currentVerse := arrayGet (verses s) (randomIndex r (length (verses s)));
       score := score s;
       timeLeft := timeLeft s;
       feedbackVisible := false;
       feedbackStatus := StatusNone;
       feedbackMessage := MsgEmpty;
       gameEnded := gameEnded s;
       timerRunning := timerRunning s;
       deferred := deferred s ++ [ClearInput];
       console :=
         LogCurrentVerse (arrayGet (verses s) (randomIndex r (length (verses s))))
         :: console s |}.
Proof. reflexivity. Qed.

Lemma endGame_returns (s : state) :
  endGame s =
  Returned tt
    {| verses := verses s;
       currentVerse := currentVerse s;
       score := score s;
       timeLeft := timeLeft s;
       feedbackVisible := true;
       feedbackStatus := Ended;
       feedbackMessage := MsgTimeUp (score s);
       gameEnded := true;
       timerRunning := timerRunning s;
       deferred := deferred s;
       console := console s |}.
Proof. reflexivity. Qed.

Lemma guarded_submitGuess (input : option string) (s : state) :
  feedbackVisible s || gameEnded s = true -> submitGuess input s = Returned tt s.
Proof. intros G. js_unfold. now rewrite G. Qed.

Lemma guarded_skipVerse (s : state) :
  feedbackVisible s || gameEnded s = true -> skipVerse s = Returned tt s.
Proof. intros G. js_unfold. now rewrite G. Qed.

(** What submitGuess does once its guards have let the guess through. *)
Lemma submitGuess_compared (raw : string) (s : state) (v : verse) (b : string) :
  feedbackVisible s || gameEnded s = false ->
  JsString.trim raw <> EmptyString ->
  currentVerse s = Some v -> book v = Str b ->
  submitGuess (Some raw) s =
  Returned tt
    (if String.eqb (JsString.toLowerCase (JsString.trim raw)) (JsString.toLowerCase b)
     then
       {| verses := verses s; currentVerse := currentVerse s;
          score := score s + 1; timeLeft := timeLeft s;
          feedbackVisible := feedbackVisible s;
          feedbackStatus := Correct; feedbackMessage := MsgCorrect;
          gameEnded := gameEnded s; timerRunning := timerRunning s;
          deferred := deferred s ++ [RevealFeedback]; console := console s |}
     else
       {| verses := verses s; currentVerse := currentVerse s;
          score := score s; timeLeft := timeLeft s;
          feedbackVisible := feedbackVisible s;
          feedbackStatus := Wrong; feedbackMessage := MsgWrong (Str b);
          gameEnded := gameEnded s; timerRunning := timerRunning s;
          deferred := deferred s ++ [RevealFeedback]; console := console s |}).
Proof.
  intros G T V B.
  assert (Tr : JsString.truthy (JsString.trim raw) = true)
    by (destruct (JsString.trim raw); [ congruence | reflexivity ]).
  js_unfold. rewrite G. cbn [option_map]. rewrite Tr. cbn [negb].
  rewrite V. cbv beta iota. rewrite B. cbv beta iota.
  destruct (String.eqb _ _); destruct s; cbn in *; subst; cbn; rewrite ?B;
    reflexivity.
Qed.

(** ** Guessing *)

(** C4. In an open round (no feedback shown, game not ended) whose current
    verse has the book name [b], a guess that is not empty once trimmed and
    equals [b] up to letter case makes submitGuess set feedbackStatus to
    'correct' and add 1 to the score; a guess that differs from [b] even up
    to letter case makes it set 'wrong' and leave the score as it is. *)
Theorem submitGuess_ignores_case (s : state) (v : verse) (b raw : string) :
  feedbackVisible s = false -> gameEnded s = false ->
  currentVerse s = Some v -> book v = Str b ->
  JsString.trim raw <> EmptyString ->
  (equalUpToCase (JsString.trim raw) b ->
   exists s', submitGuess (Some raw) s = Returned tt s'
              /\ feedbackStatus s' = Correct /\ score s' = score s + 1)
  /\ (~ equalUpToCase (JsString.trim raw) b ->
      exists s', submitGuess (Some raw) s = Returned tt s'
                 /\ feedbackStatus s' = Wrong /\ score s' = score s).
Proof.
  intros Vis End V B T.
  assert (G : feedbackVisible s || gameEnded s = false) by now rewrite Vis, End.
  pose proof (submitGuess_compared raw s v b G T V B) as Run.
  split; intros C.
  - apply toLowerCase_equalUpToCase in C. apply String.eqb_eq in C.
    rewrite C in Run. eexists. split; [ exact Run | split; reflexivity ].
  - assert (N : String.eqb (JsString.toLowerCase (JsString.trim raw))
                           (JsString.toLowerCase b) = false).
    { apply not_true_is_false. intros E. apply String.eqb_eq in E.
      now apply toLowerCase_equalUpToCase in E. }
    rewrite N in Run. eexists. split; [ exact Run | split; reflexivity ].
Qed.

Lemma submitGuess_ignores_case_witness :
  exists s', submitGuess (Some "  GENESIS ") (started [genesis_1_1] 0)
             = Returned tt s'
             /\ feedbackStatus s' = Correct
             /\ score s' = 1.
Proof.
  refine (proj1 (submitGuess_ignores_case (started [genesis_1_1] 0) genesis_1_1
                   "Genesis" "  GENESIS " eq_refl eq_refl eq_refl eq_refl _) _).
  - vm_compute. discriminate.
  - apply toLowerCase_equalUpToCase. reflexivity.
Defined.

(** C6. On every state, submitGuess with an input that is empty, or white
    space only, once trimmed returns with the state as it was: no feedback
    is shown or queued and the score is the same. *)
Theorem submitGuess_blank_input (s : state) (raw : string) :
  JsString.trim raw = EmptyString ->
  submitGuess (Some raw) s = Returned tt s
  /\ feedbackVisible (stateAfter (submitGuess (Some raw) s)) = feedbackVisible s
  /\ score (stateAfter (submitGuess (Some raw) s)) = score s.
Proof.
  intros T.
  assert (E : submitGuess (Some raw) s = Returned tt s).
  { js_unfold. cbn [option_map]. rewrite T.
    destruct (feedbackVisible s || gameEnded s); reflexivity. }
  rewrite E. repeat split.
Qed.

Lemma submitGuess_blank_input_witness :
  submitGuess (Some "   ") (started [genesis_1_1] 0)
  = Returned tt (started [genesis_1_1] 0)
  /\ feedbackVisible
       (stateAfter (submitGuess (Some "   ") (started [genesis_1_1] 0)))
     = feedbackVisible (started [genesis_1_1] 0)
  /\ score (stateAfter (submitGuess (Some "   ") (started [genesis_1_1] 0)))
     = score (started [genesis_1_1] 0).
Proof.
  apply (submitGuess_blank_input (started [genesis_1_1] 0) "   ").
  reflexivity.
Defined.

(** ** Selecting a verse *)

(** C5. For a pool that is not empty and any value [r] of Math.random(),
    0 <= r < 1, nextVerse returns with currentVerse a member of the pool
    and feedbackVisible false. *)
Theorem nextVerse_selects_member (s : state) (r : Q) :
  verses s <> [] -> (0 <= r)%Q -> (r < 1)%Q ->
  exists v s', nextVerse r s = Returned tt s'
               /\ currentVerse s' = Some v
               /\ In v (verses s)
               /\ feedbackVisible s' = false.
Proof.
  intros NE H0 H1.
  assert (Len : (0 < length (verses s))%nat).
  { destruct (verses s); [ congruence | cbn; lia ]. }
  destruct (arrayGet_in_range (verses s) (randomIndex r (length (verses s))))
    as (v & Get & Mem); [ now apply randomIndex_range | ].
  exists v. eexists. rewrite nextVerse_returns.
  split; [ reflexivity | ]. cbn. auto.
Qed.

Lemma nextVerse_selects_member_witness :
  exists v s', nextVerse (3 # 4) (set_verses [genesis_1_1; emptyObject] constructor)
               = Returned tt s'
               /\ currentVerse s' = Some v
               /\ In v (verses (set_verses [genesis_1_1; emptyObject] constructor))
               /\ feedbackVisible s' = false.
Proof.
  apply (nextVerse_selects_member
           (set_verses [genesis_1_1; emptyObject] constructor) (3 # 4)).
  - discriminate.
  - vm_compute. discriminate.
  - reflexivity.
Defined.

Lemma undefined_verse_TypeError (s : state) (raw : string) :
  currentVerse s = None -> JsString.trim raw <> EmptyString ->
  (feedbackVisible s = false -> gameEnded s = false ->
   threw (skipVerse s) = Some TypeError
   /\ threw (submitGuess (Some raw) s) = Some TypeError)
  /\ (feedbackVisible s = true \/ gameEnded s = true ->
      skipVerse s = Returned tt s /\ submitGuess (Some raw) s = Returned tt s).
Proof.
  intros V T.
  assert (Tr : JsString.truthy (JsString.trim raw) = true)
    by (destruct (JsString.trim raw); [ congruence | reflexivity ]).
  split.
  - intros Vis End. js_unfold. cbn [option_map].
    rewrite Vis, End, Tr. cbn. rewrite V. now split.
  - intros G.
    assert (G' : feedbackVisible s || gameEnded s = true).
    { destruct G as [-> | ->]; [ reflexivity | apply orb_true_r ]. }
    split; [ now apply guarded_skipVerse | now apply guarded_submitGuess ].
Qed.

(** C9, as the code has it. With an empty pool nextVerse leaves
    currentVerse undefined. In a game that has not ended the skipVerse
    that follows throws a TypeError, as does the submitGuess that follows
    with an input that is not empty once trimmed: both read the book of an
    undefined verse. In a game that has ended both return at their guard
    with the state as it was. And later on, for as long as currentVerse is
    undefined, they throw when no feedback is visible and the game has not
    ended, and return at their guard otherwise. *)
Theorem empty_pool_TypeError_unless_ended (s : state) (r : Q) (raw : string) :
  verses s = [] -> JsString.trim raw <> EmptyString ->
  (exists s1,
     nextVerse r s = Returned tt s1
     /\ currentVerse s1 = None
     /\ (gameEnded s = false ->
         threw (skipVerse s1) = Some TypeError
         /\ threw (submitGuess (Some raw) s1) = Some TypeError)
     /\ (gameEnded s = true ->
         skipVerse s1 = Returned tt s1
         /\ submitGuess (Some raw) s1 = Returned tt s1))
  /\ forall s2,
       currentVerse s2 = None ->
       (feedbackVisible s2 = false -> gameEnded s2 = false ->
        threw (skipVerse s2) = Some TypeError
        /\ threw (submitGuess (Some raw) s2) = Some TypeError)
       /\ (feedbackVisible s2 = true \/ gameEnded s2 = true ->
           skipVerse s2 = Returned tt s2
           /\ submitGuess (Some raw) s2 = Returned tt s2).
Proof.
  intros P T. split.
  - eexists. rewrite nextVerse_returns, P.
    cbn [length]. rewrite randomIndex_empty.
    split; [ reflexivity | ]. split; [ reflexivity | ].
    match goal with
    | |- context [skipVerse ?s1] =>
        destruct (undefined_verse_TypeError s1 raw eq_refl T) as [Open Shut]
    end.
    split; intros End.
    + apply Open; [ reflexivity | exact End ].
    + apply Shut. right. exact End.
  - intros s2 V. now apply undefined_verse_TypeError.
Qed.

Lemma empty_pool_TypeError_unless_ended_witness :
  exists s1, nextVerse (1 # 2) constructor = Returned tt s1
             /\ currentVerse s1 = None
             /\ threw (skipVerse s1) = Some TypeError
             /\ threw (submitGuess (Some "Genesis") s1) = Some TypeError.
Proof.
  destruct (empty_pool_TypeError_unless_ended constructor (1 # 2) "Genesis")
    as [(s1 & N & V & Open & _) _].
  - reflexivity.
  - vm_compute. discriminate.
  - exists s1. destruct (Open eq_refl) as [Sk Su].
    split; [ exact N | split; [ exact V | split; [ exact Sk | exact Su ] ] ].
Defined.

(** C9, as stated, fails: a game started on an empty pool has no current
    verse, and once its time is up, after 181 ticks, skipVerse and
    submitGuess return at their guard and throw nothing; nor do they after
    one more nextVerse. *)
Lemma ended_game_on_empty_pool_throws_nothing :
  let s := run sampleBooks noGlobals (repeat Tick 181) (started [] 0) in
  verses s = [] /\ currentVerse s = None /\ gameEnded s = true
  /\ ~ threw (skipVerse s) = Some TypeError
  /\ ~ threw (submitGuess (Some "Genesis") s) = Some TypeError
  /\ currentVerse (stateAfter (nextVerse 0 s)) = None
  /\ ~ threw (skipVerse (stateAfter (nextVerse 0 s))) = Some TypeError
  /\ ~ threw (submitGuess (Some "Genesis") (stateAfter (nextVerse 0 s)))
        = Some TypeError.
Proof.
  repeat split; try (vm_compute; discriminate).
Qed.

(** ** The effect of each method on the state *)

Lemma runCallbacks_returns (cbs : list callback) (s : state) :
  runCallbacks cbs s =
  Returned tt (if existsb isReveal cbs then set_feedbackVisible true s else s).
Proof.
  revert s. induction cbs as [ | [ | ] cbs IH]; intros s; cbn.
  - reflexivity.
  - unfold bind, ret. apply IH.
  - unfold bind, assign. rewrite IH. destruct (existsb isReveal cbs); reflexivity.
Qed.

Lemma runDeferred_returns (s : state) :
  runDeferred s =
  Returned tt (if existsb isReveal (deferred s)
               then set_feedbackVisible true (set_deferred [] s)
               else set_deferred [] s).
Proof.
  unfold runDeferred, bind, this, assign. apply runCallbacks_returns.
Qed.

Lemma submitGuess_cases (input : option string) (s : state) :
  stateAfter (submitGuess input s) = s
  \/ feedbackVisible s || gameEnded s = false
     /\ (stateAfter (submitGuess input s)
         = set_deferred (deferred s ++ [RevealFeedback])
             (set_feedbackMessage MsgCorrect
                (set_feedbackStatus Correct (set_score (score s + 1) s)))
         \/ exists b,
             stateAfter (submitGuess input s)
             = set_deferred (deferred s ++ [RevealFeedback])
                 (set_feedbackMessage (MsgWrong b) (set_feedbackStatus Wrong s))).
Proof.
  js_unfold.
  destruct (feedbackVisible s || gameEnded s) eqn:G; [ now left | ].
  destruct input as [raw | ]; cbn [option_map]; [ | now left ].
  destruct (JsString.truthy (JsString.trim raw)); cbn [negb]; [ | now left ].
  destruct (currentVerse s) as [v | ] eqn:V; [ | now left ].
  destruct (book v) as [ | b | props ] eqn:B; [ now left | | now left ].
  right. split; [ reflexivity | ].
  destruct (String.eqb _ _); [ now left | right ].
  exists (Str b). destruct s; cbn in *; subst; cbn. now rewrite B.
Qed.

Lemma skipVerse_cases (s : state) :
  stateAfter (skipVerse s) = s
  \/ feedbackVisible s || gameEnded s = false
     /\ (stateAfter (skipVerse s) = set_feedbackStatus Skipped s
         \/ exists b,
             stateAfter (skipVerse s)
             = set_feedbackVisible true
                 (set_feedbackMessage (MsgSkipped b)
                    (set_feedbackStatus Skipped s))).
Proof.
  js_unfold.
  destruct (feedbackVisible s || gameEnded s) eqn:G; [ now left | ].
  right. split; [ reflexivity | ]. cbn.
  destruct (currentVerse s) as [v | ]; [ right; now exists (book v) | now left ].
Qed.

Lemma timerCallback_cases (s : state) :
  0 < timeLeft s /\ stateAfter (timerCallback s) = set_timeLeft (timeLeft s - 1) s
  \/ timeLeft s <= 0
     /\ stateAfter (timerCallback s)
        = set_feedbackVisible true
            (set_feedbackMessage (MsgTimeUp (score s))
               (set_feedbackStatus Ended
                  (set_gameEnded true (set_timerRunning false s)))).
Proof.
  js_unfold. destruct (Z.ltb_spec 0 (timeLeft s)); [ left | right ]; auto.
Qed.

(** loadVerses writes to [verses] and to the console, nothing else. *)
Lemma loadVerses_frame books globalThis network r1 r2 (s : state) :
  exists vs log,
    stateAfter (loadVerses books globalThis network r1 r2 s)
    = set_console log (set_verses vs s).
Proof.
  destruct s.
  match goal with |- context [loadVerses _ _ _ _ _ ?s0] => set (s := s0) end.
  assert (Catch : forall e log,
             exists vs log',
               stateAfter (loadVersesCatch globalThis e (set_console log s))
               = set_console log' (set_verses vs s)).
  { intros e log.
    unfold loadVersesCatch, bind, assign, ret, throw, logged, getProp.
    destruct (globalThis "randomBB") as [[ | g | props] | ];
      eexists; eexists; reflexivity. }
  unfold loadVerses, tryCatch, loadVersesTry, fetchJson, getProp,
    bind, assign, ret, throw.
  destruct (match arrayGet books _ with Some b => b | None => Undefined end)
    as [ | id | props ]; try apply (Catch _ (console s));
    (destruct (network _) as [ | | [chapters | ]];
     try apply (Catch _ (console s));
     destruct (arrayGet chapters _); try apply (Catch _ (console s));
     match goal with
     | |- context [Returned tt (set_verses ?vs _)] => exists vs, (console s)
     end; reflexivity).
Qed.

(** ** Properties of runs *)

Ltac setters :=
  unfold set_verses, set_currentVerse, set_score, set_timeLeft,
    set_feedbackVisible, set_feedbackStatus, set_feedbackMessage,
    set_gameEnded, set_timerRunning, set_deferred, set_console in *;
  cbn [verses currentVerse score timeLeft feedbackVisible feedbackStatus
       feedbackMessage gameEnded timerRunning deferred console stateAfter] in *.

(** Case analysis on what an event does to the state. *)
Ltac step_cases e s :=
  destruct e as [ | ?r | ?input | | | | ?network ?r1 ?r2]; cbn [step];
  [ destruct (timerRunning s) eqn:?Running;
    [ destruct (timerCallback_cases s) as [[?Time ->] | [?Time ->]] | ]
  | rewrite nextVerse_returns
  | destruct (submitGuess_cases input s) as [-> | [?Guard [-> | [?b ->]]]]
  | destruct (skipVerse_cases s) as [-> | [?Guard [-> | [?b ->]]]]
  | rewrite endGame_returns
  | rewrite runDeferred_returns;
    destruct (existsb isReveal (deferred s)) eqn:?Pending
  | match goal with
    | |- context [loadVerses ?bk ?gl network r1 r2 s] =>
        destruct (loadVerses_frame bk gl network r1 r2 s) as (?vs & ?log & ->)
    end ];
  setters.

Section RunProperties.

Variable books : list jsval.
Variable globalThis : string -> option jsval.

(** C8. Whatever the event, the score after it is the score before it, or
    the event is a submitGuess that left feedbackStatus 'correct' and the
    score is one more: the score never goes down, and goes up by exactly 1
    on a correct guess only. *)
Theorem score_changes_on_correct_guess_only (e : event) (s : state) :
  score (step books globalThis e s) = score s
  \/ exists input,
       e = SubmitGuess input
       /\ feedbackStatus (step books globalThis e s) = Correct
       /\ score (step books globalThis e s) = score s + 1.
Proof.
  step_cases e s; try (left; reflexivity).
  right. exists input. repeat split.
Qed.

Lemma step_timeLeft_nonneg (e : event) (s : state) :
  0 <= timeLeft s -> 0 <= timeLeft (step books globalThis e s).
Proof. intros H. step_cases e s; lia. Qed.

Lemma run_timeLeft_nonneg (es : list event) (s : state) :
  0 <= timeLeft s -> 0 <= timeLeft (run books globalThis es s).
Proof.
  revert s. induction es as [ | e es IH]; intros s H; cbn; [ exact H | ].
  apply IH. now apply step_timeLeft_nonneg.
Qed.

(** C10. A game starts with timeLeft 180; the timer callback either finds
    timeLeft above 0 and takes 1 off, or leaves it as it is, stops the
    timer and ends the game; and in every state that events lead to from a
    started game, or from a component not started yet, timeLeft is not
    negative. *)
Theorem timeLeft_never_negative :
  (forall pool r, timeLeft (started pool r) = 180)
  /\ (forall s,
        0 < timeLeft s
        /\ stateAfter (timerCallback s) = set_timeLeft (timeLeft s - 1) s
        \/ timeLeft s <= 0
           /\ timeLeft (stateAfter (timerCallback s)) = timeLeft s
           /\ timerRunning (stateAfter (timerCallback s)) = false
           /\ gameEnded (stateAfter (timerCallback s)) = true)
  /\ (forall pool r es, 0 <= timeLeft (run books globalThis es (started pool r)))
  /\ (forall es, 0 <= timeLeft (run books globalThis es constructor)).
Proof.
  split; [ reflexivity | split; [ | split ] ].
  - intros s. destruct (timerCallback_cases s) as [[T E] | [T E]].
    + left. now split.
    + right. rewrite E. now repeat split.
  - intros pool r es. apply run_timeLeft_nonneg. cbn. lia.
  - intros es. apply run_timeLeft_nonneg. cbn. lia.
Qed.

(** *** The countdown *)

Lemma step_before_expiry (e : event) (s : state) :
  gameEnded s = false -> timerRunning s = true -> feedbackStatus s <> Ended ->
  isEndGame e = false -> (isTick e = true -> 0 < timeLeft s) ->
  gameEnded (step books globalThis e s) = false
  /\ timerRunning (step books globalThis e s) = true
  /\ feedbackStatus (step books globalThis e s) <> Ended
  /\ timeLeft (step books globalThis e s)
     = timeLeft s - (if isTick e then 1 else 0).
Proof.
  intros G R F NE T.
  step_cases e s; cbn [isTick isEndGame] in *;
    try discriminate; try (specialize (T eq_refl)); try lia;
    repeat split; try assumption; try discriminate; try lia.
Qed.

Lemma run_before_expiry (es : list event) (s : state) :
  gameEnded s = false -> timerRunning s = true -> feedbackStatus s <> Ended ->
  endedByTimerOnly es -> Z.of_nat (ticks es) <= timeLeft s ->
  gameEnded (run books globalThis es s) = false
  /\ timerRunning (run books globalThis es s) = true
  /\ feedbackStatus (run books globalThis es s) <> Ended
  /\ timeLeft (run books globalThis es s) = timeLeft s - Z.of_nat (ticks es).
Proof.
  revert s. unfold endedByTimerOnly, ticks.
  induction es as [ | e es IH]; intros s G R F NE T; cbn in *.
  - repeat split; try assumption. lia.
  - apply andb_true_iff in NE as [NE1 NE2]. apply negb_true_iff in NE1.
    destruct (step_before_expiry e s G R F NE1) as (G' & R' & F' & T').
    { intros Tk. rewrite Tk in T. cbn in T. lia. }
    destruct (IH (step books globalThis e s) G' R' F' NE2) as (G2 & R2 & F2 & T2).
    { rewrite T'. destruct (isTick e); cbn in T |- *; lia. }
    repeat split; try assumption.
    rewrite T2, T'. destruct (isTick e); cbn; lia.
Qed.

Lemma step_after_end (e : event) (s : state) :
  gameEnded s = true ->
  gameEnded (step books globalThis e s) = true
  /\ score (step books globalThis e s) = score s.
Proof.
  intros G. step_cases e s; try (split; [ assumption || reflexivity | reflexivity ]);
    rewrite G, orb_true_r in Guard; discriminate.
Qed.

Lemma run_after_end (es : list event) (s : state) :
  gameEnded s = true ->
  gameEnded (run books globalThis es s) = true
  /\ score (run books globalThis es s) = score s.
Proof.
  revert s. induction es as [ | e es IH]; intros s G; cbn; [ now split | ].
  destruct (step_after_end e s G) as [G' S'].
  destruct (IH _ G') as [G2 S2]. split; [ assumption | congruence ].
Qed.

End RunProperties.

(** ** Timer expiry *)

(** C2, as the code has it. A game starts with timeLeft 180. After events
    that hold exactly 180 timer ticks (endGame being called by the timer
    only) timeLeft is 0 and the game has not ended; the next tick, the
    181st, sets feedbackStatus to 'ended' and gameEnded to true; and from
    then on no event, so no submitGuess and no skipVerse, changes the
    score, however many there are. *)
Theorem game_ends_on_tick_after_zero books globalThis
  (pool : list verse) (r : Q) (pre : list event) :
  endedByTimerOnly pre -> ticks pre = 180%nat ->
  let s180 := run books globalThis pre (started pool r) in
  let s181 := step books globalThis Tick s180 in
  timeLeft (started pool r) = 180
  /\ timeLeft s180 = 0 /\ gameEnded s180 = false /\ feedbackStatus s180 <> Ended
  /\ feedbackStatus s181 = Ended /\ gameEnded s181 = true
  /\ forall post,
       score (run books globalThis post s181) = score s181
       /\ gameEnded (run books globalThis post s181) = true.
Proof.
  intros NE T s180 s181.
  destruct (run_before_expiry books globalThis pre (started pool r))
    as (G & R & F & L); try reflexivity; try assumption.
  { discriminate. }
  { rewrite T. cbn. lia. }
  fold s180 in G, R, F, L. rewrite T in L. cbn in L.
  assert (E : s181 = set_feedbackVisible true
                       (set_feedbackMessage (MsgTimeUp (score s180))
                          (set_feedbackStatus Ended
                             (set_gameEnded true (set_timerRunning false s180))))).
  { unfold s181. cbn [step]. rewrite R.
    destruct (timerCallback_cases s180) as [[T0 _] | [_ ->]]; [ lia | reflexivity ]. }
  repeat split; try assumption; try (rewrite E; reflexivity);
    apply run_after_end; rewrite E; reflexivity.
Qed.

Lemma game_ends_on_tick_after_zero_witness :
  let pre := SubmitGuess (Some "genesis") :: UpdateComplete :: NextVerse 0
             :: repeat Tick 180 in
  let s180 := run sampleBooks noGlobals pre (started [genesis_1_1] 0) in
  let s181 := step sampleBooks noGlobals Tick s180 in
  timeLeft (started [genesis_1_1] 0) = 180
  /\ timeLeft s180 = 0 /\ gameEnded s180 = false /\ feedbackStatus s180 <> Ended
  /\ feedbackStatus s181 = Ended /\ gameEnded s181 = true
  /\ forall post,
       score (run sampleBooks noGlobals post s181) = score s181
       /\ gameEnded (run sampleBooks noGlobals post s181) = true.
Proof.
  apply (game_ends_on_tick_after_zero sampleBooks noGlobals [genesis_1_1] 0
           (SubmitGuess (Some "genesis") :: UpdateComplete :: NextVerse 0
            :: repeat Tick 180)).
  - reflexivity.
  - reflexivity.
Defined.

(** C2, as stated, fails: after exactly 180 ticks of a started game the
    status is not 'ended' and gameEnded is false. *)
Lemma not_ended_after_180_ticks :
  let s := run sampleBooks noGlobals (repeat Tick 180) (started [genesis_1_1] 0) in
  timeLeft s = 0
  /\ ~ (feedbackStatus s = Ended /\ gameEnded s = true).
Proof.
  split; [ reflexivity | ].
  intros [St _]. vm_compute in St. discriminate.
Qed.

(** ** The invariant of the round state *)

Lemma task_keeps_invariant books globalThis (e : event) (s : state) :
  roundInvariant s -> permitted e s = true ->
  roundInvariant (task books globalThis e s).
Proof.
  unfold roundInvariant, feedbackConsistent, endConsistent, task.
  intros (D & T & S & F & [E1 E2]) P.
  step_cases e s; rewrite runDeferred_returns; setters; rewrite ?D; cbn;
    setters.
  all: try (rewrite D in Pending; discriminate).
  all: cbn [permitted] in P.
  all: destruct (gameEnded s) eqn:G;
    try (rewrite orb_true_r in Guard); try discriminate.
  all: repeat split; try assumption; try lia; try discriminate; try tauto.
  all: intros; try discriminate; try tauto; try lia.
  all: match goal with
       | St : _ = Ended /\ _ |- _ => destruct St; discriminate
       end.
Qed.

Lemma started_settled_invariant (pool : list verse) (r : Q) :
  roundInvariant (stateAfter (runDeferred (started pool r))).
Proof.
  unfold started, startGame, bind, assign. rewrite nextVerse_returns.
  rewrite runDeferred_returns. cbn.
  unfold roundInvariant, feedbackConsistent, endConsistent; cbn.
  repeat split; try discriminate; try lia.
Qed.

(** C3, as the code has it. In every state reached from a started game by
    handling events one at a time with their queued callbacks (timer
    ticks, submitGuess, skipVerse, nextVerse while the game has not ended,
    endGame at time 0 only), feedbackVisible is true only when
    feedbackStatus is not 'none', and gameEnded is true if and only if
    feedbackStatus is 'ended' and timeLeft is 0. *)
Theorem round_invariant books globalThis (s : state) :
  reachableByTasks books globalThis s ->
  feedbackConsistent s /\ endConsistent s.
Proof.
  intros R.
  assert (I : roundInvariant s).
  { induction R as [pool r | s e _ IH P].
    - apply started_settled_invariant.
    - now apply task_keeps_invariant. }
  destruct I as (_ & _ & _ & F & E). now split.
Qed.

Lemma round_invariant_witness :
  let s0 := stateAfter (runDeferred (started [genesis_1_1] 0)) in
  let s := task sampleBooks noGlobals (NextVerse 0)
             (task sampleBooks noGlobals (SubmitGuess (Some "Exodus"))
                (task sampleBooks noGlobals Tick s0)) in
  feedbackConsistent s /\ endConsistent s.
Proof.
  apply (round_invariant sampleBooks noGlobals).
  apply reach_task; [ | reflexivity ].
  apply reach_task; [ | reflexivity ].
  apply reach_task; [ | reflexivity ].
  apply reach_started.
Defined.

(** C3, as stated, fails: endGame is one of the operations, and called on
    a started game it leaves gameEnded true with timeLeft 180. *)
Lemma endGame_before_expiry_breaks_invariant :
  ~ (forall s, reachable sampleBooks noGlobals s ->
               feedbackConsistent s /\ endConsistent s).
Proof.
  intros H.
  destruct (H (run sampleBooks noGlobals [EndGame] (started [genesis_1_1] 0)))
    as [_ [E _]].
  - exists [genesis_1_1], 0%Q, [EndGame]. reflexivity.
  - destruct (E eq_refl) as [_ T]. discriminate T.
Qed.

(** Nor does nextVerse keep it once the game has ended by the timer: the
    status goes back to 'none' while gameEnded stays true. *)
Example nextVerse_after_end :
  let s := run sampleBooks noGlobals (repeat Tick 181 ++ [NextVerse 0])
             (started [genesis_1_1] 0) in
  gameEnded s = true /\ feedbackStatus s = StatusNone /\ timeLeft s = 0.
Proof. repeat split. Qed.

(** And a callback of submitGuess that runs after a nextVerse of the same
    call stack shows feedback with status 'none'. *)
Example reveal_after_nextVerse :
  let s := run sampleBooks noGlobals
             [SubmitGuess (Some "Genesis"); NextVerse 0; UpdateComplete]
             (started [genesis_1_1] 0) in
  feedbackVisible s = true /\ feedbackStatus s = StatusNone.
Proof. repeat split. Qed.

(** ** Calls that the guards turn away *)

(** C7. On every state with feedbackVisible true, or with gameEnded true,
    submitGuess and skipVerse return with the whole state as it was; so
    any number of such calls in a row leaves the state as it was. *)
Theorem guarded_calls_change_nothing books globalThis
  (s : state) (input : option string) :
  feedbackVisible s = true \/ gameEnded s = true ->
  submitGuess input s = Returned tt s
  /\ skipVerse s = Returned tt s
  /\ forall es,
       Forall (fun e => e = SkipVerse \/ exists i, e = SubmitGuess i) es ->
       run books globalThis es s = s.
Proof.
  intros G.
  assert (G' : feedbackVisible s || gameEnded s = true).
  { destruct G as [-> | ->]; [ reflexivity | apply orb_true_r ]. }
  split; [ now apply guarded_submitGuess | ].
  split; [ now apply guarded_skipVerse | ].
  intros es. induction 1 as [ | e es [-> | [i ->]] _ IH]; cbn [run step].
  - reflexivity.
  - now rewrite guarded_skipVerse.
  - now rewrite guarded_submitGuess.
Qed.

Lemma guarded_calls_change_nothing_witness :
  let s := stateAfter (skipVerse (started [genesis_1_1] 0)) in
  submitGuess (Some "Genesis") s = Returned tt s
  /\ skipVerse s = Returned tt s
  /\ forall es,
       Forall (fun e => e = SkipVerse \/ exists i, e = SubmitGuess i) es ->
       run sampleBooks noGlobals es s = s.
Proof.
  apply (guarded_calls_change_nothing sampleBooks noGlobals
           (stateAfter (skipVerse (started [genesis_1_1] 0))) (Some "Genesis")).
  left. reflexivity.
Defined.

(** ** Loading verses *)

(** The [try] block throws before it writes anything. *)
Lemma loadVersesTry_throws_unchanged books network r1 r2 (s s' : state) (e : error) :
  loadVersesTry books network r1 r2 s = Thrown e s' -> s' = s.
Proof.
  unfold loadVersesTry, fetchJson, getProp, bind, assign, ret, throw.
  destruct (match arrayGet books _ with Some b => b | None => Undefined end)
    as [ | id | props ];
    try (intros [= _ <-]; reflexivity);
    (destruct (network _) as [ | | [chapters | ]];
     try (intros [= _ <-]; reflexivity);
     destruct (arrayGet chapters _); intros [= _ <-] || discriminate; reflexivity).
Qed.

(** When the page has no global named randomBB, every failure inside the
    [try] block is logged and then lost to the ReferenceError of the
    [catch] block: the pool is not replaced, and the caller gets the
    exception. *)
Lemma loadVerses_failure_escapes books globalThis network r1 r2
  (s s' : state) (e : error) :
  globalThis "randomBB" = None ->
  loadVersesTry books network r1 r2 s = Thrown e s' ->
  loadVerses books globalThis network r1 r2 s
  = Thrown ReferenceError (logged (LogLoadFailed e) s)
  /\ verses (stateAfter (loadVerses books globalThis network r1 r2 s)) = verses s.
Proof.
  intros NoGlobal Fail.
  pose proof (loadVersesTry_throws_unchanged _ _ _ _ _ _ _ Fail) as ->.
  assert (E : loadVerses books globalThis network r1 r2 s
              = Thrown ReferenceError (logged (LogLoadFailed e) s)).
  { unfold loadVerses, tryCatch. rewrite Fail.
    unfold loadVersesCatch, bind, assign, throw. now rewrite NoGlobal. }
  rewrite E. split; reflexivity.
Qed.

(** C1, on the code. With the network down and no global named randomBB,
    the [try] block of loadVerses throws at fetch; the [catch] block logs
    the failure and then throws a ReferenceError on reading randomBB, so
    loadVerses throws to its caller, the pool stays as it was (empty, no
    placeholder record), and connectedCallback never starts the game. The
    same happens when the body is not JSON. *)
Theorem loadVerses_offline_throws :
  loadVersesTry sampleBooks offline 0 0 constructor = Thrown TypeError constructor
  /\ loadVerses sampleBooks noGlobals offline 0 0 constructor
     = Thrown ReferenceError (logged (LogLoadFailed TypeError) constructor)
  /\ verses (stateAfter (loadVerses sampleBooks noGlobals offline 0 0 constructor))
     = []
  /\ connectedCallback sampleBooks noGlobals offline 0 0 0 constructor
     = Thrown ReferenceError (logged (LogLoadFailed TypeError) constructor)
  /\ timerRunning
       (stateAfter (connectedCallback sampleBooks noGlobals offline 0 0 0 constructor))
     = false
  /\ loadVerses sampleBooks noGlobals sampleNetwork (1 # 2) 0 constructor
     = Thrown ReferenceError (logged (LogLoadFailed SyntaxError) constructor).
Proof. repeat split. Qed.

(** What the [catch] block is after: had the name randomBB been in scope
    (here: as a global), the pool would hold the one placeholder record. *)
Example loadVerses_with_randomBB_in_scope :
  loadVerses sampleBooks
    (fun x => if String.eqb x "randomBB"
              then Some (Obj (Field "id" (Str "GEN") NoProps)) else None)
    offline 0 0 constructor
  = Returned tt
      (set_verses
         [ {| text := Str "Error, could not find this book id on the API:";
              book := Str "GEN";
              chapterNumber := None; verseNumber := None; language := None |} ]
         (logged (LogLoadFailed TypeError) constructor)).
Proof. reflexivity. Qed.

(** A chapter with no verse gives an empty pool, and the game starts on it
    with no current verse. *)
Example empty_chapter_gives_empty_pool :
  let s := stateAfter
             (connectedCallback sampleBooks noGlobals
                (fun _ => Document (Some [[]])) 0 0 0 constructor) in
  verses s = [] /\ currentVerse s = None /\ timerRunning s = true.
Proof. repeat split. Qed.

(** A load that succeeds, then the game starts. *)
Example connected :
  let s := stateAfter
             (connectedCallback sampleBooks noGlobals sampleNetwork 0 0 (1 # 2)
                constructor) in
  timerRunning s = true /\ timeLeft s = 180
  /\ option_map verseNumber (currentVerse s) = Some (Some 2).
Proof. repeat split. Qed.

(** ** The view *)

Example timer_65 : timerMinutes 65 ++ ":" ++ timerSeconds 65 = "01:05".
Proof. reflexivity. Qed.

Example timer_0 : timerMinutes 0 ++ ":" ++ timerSeconds 0 = "00:00".
Proof. reflexivity. Qed.

Example render_before_loading :
  option_map (fun vw => (chapterText vw, verseText vw, quoteText vw))
    (match render constructor with Returned vw _ => Some vw | Thrown _ _ => None end)
  = Some (".", ".", "Loading verse...").
Proof. reflexivity. Qed.

Lemma below_by_enumeration (P : Z -> bool) (n : Z) :
  forallb P (map Z.of_nat (seq 0 (Z.to_nat n))) = true ->
  forall z, 0 <= z < n -> P z = true.
Proof.
  intros All z Hz. rewrite forallb_forall in All. apply All.
  rewrite <- (Z2Nat.id z) by lia. apply in_map. apply in_seq. lia.
Qed.

Lemma timer_reads_back (t : Z) :
  0 <= t < 6000 ->
  String.length (timerMinutes t ++ ":" ++ timerSeconds t) = 5%nat
  /\ readTimer (timerMinutes t ++ ":" ++ timerSeconds t) = Some t.
Proof.
  intros Ht.
  assert (B : timerReadsBack t = true).
  { apply (below_by_enumeration timerReadsBack 6000); [ vm_compute; reflexivity | lia ]. }
  unfold timerReadsBack in B. apply andb_true_iff in B as [L R].
  apply Nat.eqb_eq in L. split; [ exact L | ].
  destruct (readTimer _) as [t' | ]; [ | discriminate ].
  apply Z.eqb_eq in R. now subst.
Qed.

Lemma render_returns (s : state) (v : verse) :
  currentVerse s = Some v ->
  render s =
  Returned
    {| timerText := timerMinutes (timeLeft s) ++ ":" ++ timerSeconds (timeLeft s);
       chapterText := numberSlot (chapterNumber v);
       verseText := numberSlot (verseNumber v);
       quoteText := textSlot (text v);
       guessInput := negb (feedbackVisible s) && negb (gameEnded s);
       scoreText := "Correct: " ++ numberToString (score s);
       feedbackOverlay :=
         if feedbackVisible s then
           Some {| overlayClass := feedbackClass (feedbackStatus s);
                   overlayMessage := feedbackMessage s;
                   nextButton :=
                     negb (String.eqb (statusString (feedbackStatus s)) "ended") |}
         else None |}
    s.
Proof. intros V. unfold render, bind, this, ret. now rewrite V. Qed.

Lemma render_inversion (s s' : state) (vw : view) :
  render s = Returned vw s' -> s' = s /\ exists v, currentVerse s = Some v.
Proof.
  destruct (currentVerse s) as [v | ] eqn:V.
  - rewrite (render_returns s v V). intros [= _ <-]. split; [ reflexivity | now exists v ].
  - unfold render, bind, this, throw. rewrite V. discriminate.
Qed.

(** render writes no field of the component, and it throws, a TypeError,
    exactly when there is no current verse: so it throws after a nextVerse
    on an empty pool, and returns after one on a pool with a verse. *)
Theorem render_needs_current_verse (s : state) (r : Q) :
  stateAfter (render s) = s
  /\ (threw (render s) = Some TypeError <-> currentVerse s = None)
  /\ (threw (render s) = None <-> currentVerse s <> None)
  /\ (verses s = [] ->
      threw (render (stateAfter (nextVerse r s))) = Some TypeError)
  /\ (verses s <> [] -> (0 <= r)%Q -> (r < 1)%Q ->
      threw (render (stateAfter (nextVerse r s))) = None).
Proof.
  assert (Cases : forall s0,
             stateAfter (render s0) = s0
             /\ (threw (render s0) = Some TypeError <-> currentVerse s0 = None)
             /\ (threw (render s0) = None <-> currentVerse s0 <> None)).
  { intros s0. destruct (currentVerse s0) as [v | ] eqn:V.
    - rewrite (render_returns s0 v V). cbn.
      repeat split; try discriminate; congruence.
    - unfold render, bind, this, throw. rewrite V. cbn.
      repeat split; try discriminate; congruence. }
  destruct (Cases s) as (A & B & C).
  repeat split; try apply B; try apply C; try exact A.
  - intros P. apply (Cases (stateAfter (nextVerse r s))).
    rewrite nextVerse_returns, P. cbn [stateAfter currentVerse length].
    now rewrite randomIndex_empty.
  - intros P H0 H1. apply (Cases (stateAfter (nextVerse r s))).
    destruct (nextVerse_returns r s).
    assert (Len : (0 < length (verses s))%nat)
      by (destruct (verses s); [ congruence | cbn; lia ]).
    destruct (arrayGet_in_range (verses s) (randomIndex r (length (verses s))))
      as (v & Get & _); [ now apply randomIndex_range | ].
    rewrite nextVerse_returns. cbn [stateAfter currentVerse]. rewrite Get.
    discriminate.
Qed.

Lemma render_needs_current_verse_witness :
  threw (render (stateAfter (nextVerse (1 # 3) constructor))) = Some TypeError
  /\ threw (render
              (stateAfter (nextVerse (1 # 3) (set_verses [genesis_1_1] constructor))))
     = None.
Proof.
  split.
  - apply (render_needs_current_verse constructor (1 # 3)). reflexivity.
  - apply (render_needs_current_verse (set_verses [genesis_1_1] constructor) (1 # 3)).
    + discriminate.
    + vm_compute. discriminate.
    + reflexivity.
Defined.

(** ** The countdown, exactly *)

Lemma ticks_cons (e : event) (es : list event) :
  Z.of_nat (ticks (e :: es)) = (if isTick e then 1 else 0) + Z.of_nat (ticks es).
Proof. unfold ticks. cbn [filter]. destruct (isTick e); cbn [length]; lia. Qed.

Section Countdown.

Variable books : list jsval.
Variable globalThis : string -> option jsval.

Lemma step_clock (e : event) (s : state) :
  0 <= timeLeft s -> timerRunning s = true \/ timeLeft s = 0 ->
  (timerRunning (step books globalThis e s) = true
   \/ timeLeft (step books globalThis e s) = 0)
  /\ timeLeft (step books globalThis e s)
     = Z.max 0 (timeLeft s - (if isTick e then 1 else 0)).
Proof.
  intros T J. step_cases e s; cbn [isTick]; split; try lia; try tauto.
  all: destruct J as [J | J]; try congruence; lia.
Qed.

Lemma run_clock (es : list event) (s : state) :
  0 <= timeLeft s -> timerRunning s = true \/ timeLeft s = 0 ->
  timeLeft (run books globalThis es s)
  = Z.max 0 (timeLeft s - Z.of_nat (ticks es)).
Proof.
  revert s. induction es as [ | e es IH]; intros s T J.
  - cbn. lia.
  - cbn [run]. destruct (step_clock e s T J) as [J' E].
    rewrite IH; [ | rewrite E; lia | exact J' ].
    rewrite E, ticks_cons. destruct (isTick e); lia.
Qed.

(** Whatever else happens, the clock of a started game is 180 minus the
    number of ticks so far, and 0 once there have been 180: no method but
    the timer callback writes timeLeft, and the interval is cleared only
    after timeLeft has reached 0. *)
Theorem clock_counts_ticks (pool : list verse) (r : Q) (es : list event) :
  timeLeft (run books globalThis es (started pool r))
  = Z.max 0 (180 - Z.of_nat (ticks es)).
Proof.
  rewrite run_clock; [ reflexivity | cbn; lia | now left ].
Qed.

(** Whenever render returns in a state that events lead to from a started
    game, it has left the state as it was and its timer text has five code
    units, minutes, colon, seconds, that read back as timeLeft. *)
Theorem render_timer_reads_back (pool : list verse) (r : Q) (es : list event)
  (vw : view) (s' : state) :
  render (run books globalThis es (started pool r)) = Returned vw s' ->
  s' = run books globalThis es (started pool r)
  /\ String.length (timerText vw) = 5%nat
  /\ readTimer (timerText vw) = Some (timeLeft s').
Proof.
  intros R. destruct (render_inversion _ _ _ R) as [-> [v V]].
  rewrite (render_returns _ v V) in R. injection R as <-.
  cbn [timerText]. split; [ reflexivity | ].
  apply timer_reads_back. rewrite run_clock; [ | cbn; lia | now left ].
  change (timeLeft (started pool r)) with 180. lia.
Qed.

End Countdown.

Lemma render_timer_reads_back_witness :
  let s := run sampleBooks noGlobals [Tick; SkipVerse; Tick; Tick]
             (started [genesis_1_1] 0) in
  exists vw, render s = Returned vw s
             /\ String.length (timerText vw) = 5%nat
             /\ readTimer (timerText vw) = Some 177.
Proof.
  intros s.
  destruct (render s) as [vw s' | ] eqn:R; [ | vm_compute in R; discriminate ].
  exists vw.
  destruct (render_timer_reads_back sampleBooks noGlobals [genesis_1_1] 0
              [Tick; SkipVerse; Tick; Tick] vw s' R) as (E & L & T).
  subst s'. split; [ reflexivity | split; [ exact L | exact T ] ].
Defined.

(** ** The view and the controller *)

(** When render leaves out the input and the Submit button, submitGuess
    changes nothing whatever the input; when it renders them and the
    current verse names its book, a guess that is not blank is taken:
    submitGuess returns with status 'correct' or 'wrong' and has queued the
    callback that shows the feedback. *)
Theorem input_rendered_when_guess_taken (s s' : state) (vw : view) :
  render s = Returned vw s' ->
  (guessInput vw = false ->
   forall input, submitGuess input s = Returned tt s)
  /\ (guessInput vw = true ->
      forall raw v b,
        currentVerse s = Some v -> book v = Str b ->
        JsString.trim raw <> EmptyString ->
        exists s2, submitGuess (Some raw) s = Returned tt s2
                   /\ (feedbackStatus s2 = Correct \/ feedbackStatus s2 = Wrong)
                   /\ deferred s2 = (deferred s ++ [RevealFeedback])%list).
Proof.
  intros R. destruct (render_inversion _ _ _ R) as [-> [v V]].
  rewrite (render_returns _ v V) in R. injection R as <-. cbn [guessInput].
  split; intros G.
  - intros input. apply guarded_submitGuess.
    destruct (feedbackVisible s), (gameEnded s); cbn in G |- *; congruence.
  - intros raw v' b V' B T.
    assert (G' : feedbackVisible s || gameEnded s = false)
      by (destruct (feedbackVisible s), (gameEnded s); cbn in G |- *; congruence).
    rewrite (submitGuess_compared raw s v' b G' T V' B).
    eexists. split; [ reflexivity | ].
    destruct (String.eqb _ _); cbn; auto.
Qed.

Lemma input_rendered_when_guess_taken_witness :
  exists s2, submitGuess (Some "exodus") (started [genesis_1_1] 0) = Returned tt s2
             /\ (feedbackStatus s2 = Correct \/ feedbackStatus s2 = Wrong)
             /\ deferred s2 = (deferred (started [genesis_1_1] 0) ++ [RevealFeedback])%list.
Proof.
  destruct (render (started [genesis_1_1] 0)) as [vw s' | ] eqn:R;
    [ | vm_compute in R; discriminate ].
  refine (proj2 (input_rendered_when_guess_taken _ _ vw R) _
            "exodus" genesis_1_1 "Genesis" eq_refl eq_refl _).
  - vm_compute in R. injection R as <- _. reflexivity.
  - vm_compute. discriminate.
Defined.

Lemma task_keeps_overlay_when_ended books globalThis (e : event) (s : state) :
  roundInvariant s -> (gameEnded s = true -> feedbackVisible s = true) ->
  permitted e s = true ->
  gameEnded (task books globalThis e s) = true ->
  feedbackVisible (task books globalThis e s) = true.
Proof.
  unfold roundInvariant, task. intros (D & _) V P.
  step_cases e s; rewrite runDeferred_returns; setters; rewrite ?D; cbn;
    setters; try tauto.
  all: try (rewrite D in Pending; discriminate).
  cbn [permitted] in P. destruct (gameEnded s); [ discriminate | ].
  discriminate.
Qed.

Lemma reachableByTasks_facts books globalThis (s : state) :
  reachableByTasks books globalThis s ->
  roundInvariant s /\ (gameEnded s = true -> feedbackVisible s = true).
Proof.
  induction 1 as [pool r | s e _ [I V] P].
  - split; [ apply started_settled_invariant | discriminate ].
  - split; [ now apply task_keeps_invariant
           | now apply task_keeps_overlay_when_ended ].
Qed.

(** In every state that events handled one at a time lead to, a render
    that returns shows either the guess input or the feedback overlay,
    never both and never neither; the overlay has its Next button exactly
    while the game has not ended, which is when nextVerse may be called;
    and the overlay has no colour class exactly when the game has ended. *)
Theorem view_shows_input_or_overlay books globalThis (s s' : state) (vw : view) :
  reachableByTasks books globalThis s ->
  render s = Returned vw s' ->
  (guessInput vw = true <-> feedbackOverlay vw = None)
  /\ forall o,
       feedbackOverlay vw = Some o ->
       (nextButton o = true <-> gameEnded s = false)
       /\ (nextButton o = true -> forall r, permitted (NextVerse r) s = true)
       /\ (overlayClass o = EmptyString <-> gameEnded s = true).
Proof.
  intros Reach R.
  destruct (reachableByTasks_facts _ _ _ Reach) as [(_ & _ & S & F & [E1 E2]) V].
  destruct (render_inversion _ _ _ R) as [-> [v Cv]].
  rewrite (render_returns _ v Cv) in R. injection R as <-.
  cbn [guessInput feedbackOverlay]. unfold feedbackConsistent in F.
  destruct (feedbackVisible s) eqn:Vis; cbn.
  - split; [ split; discriminate | ].
    intros o [= <-]. cbn [nextButton overlayClass permitted].
    specialize (F eq_refl).
    destruct (feedbackStatus s) eqn:St; cbn; try congruence;
      destruct (gameEnded s) eqn:G;
      try (destruct (E1 eq_refl); discriminate);
      try (specialize (S eq_refl); discriminate);
      repeat split; intros; congruence.
  - destruct (gameEnded s) eqn:G; [ specialize (V eq_refl); discriminate | ].
    split; [ split; reflexivity | discriminate ].
Qed.

Lemma view_shows_input_or_overlay_witness :
  let s := task sampleBooks noGlobals SkipVerse
             (stateAfter (runDeferred (started [genesis_1_1] 0))) in
  exists vw, render s = Returned vw s
             /\ (guessInput vw = true <-> feedbackOverlay vw = None)
             /\ forall o,
                  feedbackOverlay vw = Some o ->
                  (nextButton o = true <-> gameEnded s = false)
                  /\ (nextButton o = true ->
                      forall r, permitted (NextVerse r) s = true)
                  /\ (overlayClass o = EmptyString <-> gameEnded s = true).
Proof.
  intros s.
  destruct (render s) as [vw s' | ] eqn:R; [ | vm_compute in R; discriminate ].
  exists vw.
  assert (E : s' = s) by (apply (render_inversion _ _ _ R)).
  split; [ now rewrite E | ].
  apply (view_shows_input_or_overlay sampleBooks noGlobals s s' vw); [ | exact R ].
  apply reach_task; [ apply reach_started | reflexivity ].
Defined.

(** ** Loading, mounting and unmounting *)

Lemma mapWithIndex_length {A B} (f : A -> Z -> B) (i : Z) (l : list A) :
  length (mapWithIndex f i l) = length l.
Proof.
  revert i. induction l as [ | x l IH]; intros i; cbn; [ reflexivity | ].
  now rewrite IH.
Qed.

Lemma mapWithIndex_nth {A B} (f : A -> Z -> B) (i : Z) (l : list A) (n : nat) :
  nth_error (mapWithIndex f i l) n
  = option_map (fun x => f x (i + Z.of_nat n)) (nth_error l n).
Proof.
  revert i n. induction l as [ | x l IH]; intros i [ | n]; cbn [mapWithIndex nth_error option_map].
  - reflexivity.
  - reflexivity.
  - f_equal. f_equal. lia.
  - rewrite IH. destruct (nth_error l n); cbn; [ | reflexivity ].
    f_equal. f_equal. lia.
Qed.

Lemma arrayGet_Some {A} (a : list A) (i : Z) (x : A) :
  arrayGet a i = Some x ->
  0 <= i < Z.of_nat (length a) /\ nth_error a (Z.to_nat i) = Some x.
Proof.
  unfold arrayGet. destruct (Z.ltb_spec i 0); [ discriminate | ].
  intros E. split; [ | exact E ].
  assert (Z.to_nat i < length a)%nat by (apply nth_error_Some; congruence). lia.
Qed.

(** What a [try] block that returns has done. *)
Lemma loadVersesTry_returns books network r1 r2 (s s' : state) :
  loadVersesTry books network r1 r2 s = Returned tt s' ->
  exists bk id chapters chapter name,
    arrayGet books (randomIndex r1 (length books)) = Some bk
    /\ getProp bk "id" s = Returned id s
    /\ getProp bk "en" s = Returned name s
    /\ network (bookUrl "en" id) = Document (Some chapters)
    /\ arrayGet chapters (randomIndex r2 (length chapters)) = Some chapter
    /\ s' = set_verses
              (mapWithIndex
                 (fun verse verseIndex =>
                    {| text := Str verse; book := name;
                       chapterNumber :=
                         Some (randomIndex r2 (length chapters) + 1);
                       verseNumber := Some (verseIndex + 1);
                       language := Some "en" |})
                 0 chapter)
              s.
Proof.
  unfold loadVersesTry, fetchJson, bind, assign, ret, throw.
  destruct (arrayGet books _) as [bk | ] eqn:Bk; [ | discriminate ].
  destruct bk as [ | str | props ]; cbn [getProp]; unfold ret, throw;
    [ discriminate | | ];
    (destruct (network _) as [ | | [chapters | ]] eqn:N; try discriminate;
     destruct (arrayGet chapters _) as [chapter | ] eqn:Ch; try discriminate;
     intros [= <-];
     eexists; eexists; exists chapters, chapter; eexists;
     repeat split; try reflexivity; assumption).
Qed.

(** A load that completes, from [updated] or anywhere else, touches the
    pool and the console only: the current verse stays (a new pool is used
    from the next nextVerse on), and so do score, clock, feedback, the
    timer and the queued callbacks. *)
Theorem refill_touches_pool_only books globalThis network r1 r2
  (changed : bool) (s : state) :
  let s' := stateAfter (updated changed books globalThis network r1 r2 s) in
  currentVerse s' = currentVerse s /\ score s' = score s
  /\ timeLeft s' = timeLeft s /\ feedbackVisible s' = feedbackVisible s
  /\ feedbackStatus s' = feedbackStatus s
  /\ feedbackMessage s' = feedbackMessage s
  /\ gameEnded s' = gameEnded s /\ timerRunning s' = timerRunning s
  /\ deferred s' = deferred s
  /\ (changed = false -> s' = s).
Proof.
  unfold updated. destruct changed.
  - destruct (loadVerses_frame books globalThis network r1 r2 s) as (vs & log & E).
    cbn zeta. rewrite E. repeat split. discriminate.
  - cbn. repeat split.
Qed.

(** Every verse of a loaded pool carries the text at its place in one
    chapter of the fetched document, its place counted from 1 as verse
    number, the number from 1 of that chapter among the chapters, the
    language 'en' and the same book as all the others; the pool is as long
    as the chapter. *)
Theorem loaded_pool_numbers_verses books network r1 r2 (s s' : state) :
  loadVersesTry books network r1 r2 s = Returned tt s' ->
  exists chapters chapter name c,
    (exists url, network url = Document (Some chapters))
    /\ 1 <= c <= Z.of_nat (length chapters)
    /\ nth_error chapters (Z.to_nat (c - 1)) = Some chapter
    /\ length (verses s') = length chapter
    /\ forall i v,
         nth_error (verses s') i = Some v ->
         exists txt,
           nth_error chapter i = Some txt
           /\ v = {| text := Str txt; book := name;
                     chapterNumber := Some c;
                     verseNumber := Some (Z.of_nat i + 1);
                     language := Some "en" |}.
Proof.
  intros R.
  destruct (loadVersesTry_returns _ _ _ _ _ _ R)
    as (bk & id & chapters & chapter & name & _ & _ & _ & N & Ch & ->).
  apply arrayGet_Some in Ch as [Range Nth].
  exists chapters, chapter, name, (randomIndex r2 (length chapters) + 1).
  split; [ eexists; exact N | ].
  split; [ lia | ].
  split; [ now replace (randomIndex r2 (length chapters) + 1 - 1)
             with (randomIndex r2 (length chapters)) by lia | ].
  cbn [verses set_verses]. split; [ apply mapWithIndex_length | ].
  intros i v. rewrite mapWithIndex_nth.
  destruct (nth_error chapter i) as [txt | ]; cbn; [ | discriminate ].
  intros [= <-]. now exists txt.
Qed.

Lemma loaded_pool_numbers_verses_witness :
  exists chapters chapter name c,
    (exists url, sampleNetwork url = Document (Some chapters))
    /\ 1 <= c <= Z.of_nat (length chapters)
    /\ nth_error chapters (Z.to_nat (c - 1)) = Some chapter
    /\ length (verses (stateAfter (loadVersesTry sampleBooks sampleNetwork 0 0
                                     constructor)))
       = length chapter
    /\ forall i v,
         nth_error (verses (stateAfter (loadVersesTry sampleBooks sampleNetwork
                                          0 0 constructor))) i = Some v ->
         exists txt,
           nth_error chapter i = Some txt
           /\ v = {| text := Str txt; book := name;
                     chapterNumber := Some c;
                     verseNumber := Some (Z.of_nat i + 1);
                     language := Some "en" |}.
Proof.
  apply (loaded_pool_numbers_verses sampleBooks sampleNetwork 0 0 constructor).
  reflexivity.
Defined.

(** With no book in the list, with a fetch that rejects, with a body that
    has no chapters or has none in them, the [try] block throws a TypeError
    before it has written anything; and on a page with no global named
    randomBB loadVerses then ends in the ReferenceError of its [catch]
    block, the failure logged and the pool as it was. *)
Theorem load_fails_on_missing_data books globalThis network r1 r2 (s : state) :
  books = []
  \/ (forall url, network url = FetchRejects)
  \/ (forall url, network url = Document None)
  \/ (forall url, network url = Document (Some [])) ->
  loadVersesTry books network r1 r2 s = Thrown TypeError s
  /\ (globalThis "randomBB" = None ->
      loadVerses books globalThis network r1 r2 s
      = Thrown ReferenceError (logged (LogLoadFailed TypeError) s)
      /\ verses (stateAfter (loadVerses books globalThis network r1 r2 s))
         = verses s).
Proof.
  intros H.
  assert (T : loadVersesTry books network r1 r2 s = Thrown TypeError s).
  { unfold loadVersesTry, fetchJson, bind, assign, ret, throw.
    destruct H as [-> | H].
    - cbn [length]. rewrite randomIndex_empty. reflexivity.
    - destruct (arrayGet books _) as [[ | str | props] | ]; cbn [getProp];
        unfold ret, throw; try reflexivity;
        destruct H as [H | [H | H]]; rewrite H; try reflexivity;
        cbn [length]; rewrite randomIndex_empty; reflexivity. }
  split; [ exact T | ].
  intros G. now apply loadVerses_failure_escapes with (s' := s).
Qed.

Lemma load_fails_on_missing_data_witness :
  loadVersesTry sampleBooks (fun _ => Document (Some [])) (1 # 2) (1 # 2) constructor
  = Thrown TypeError constructor
  /\ (noGlobals "randomBB" = None ->
      loadVerses sampleBooks noGlobals (fun _ => Document (Some [])) (1 # 2) (1 # 2)
        constructor
      = Thrown ReferenceError (logged (LogLoadFailed TypeError) constructor)
      /\ verses (stateAfter (loadVerses sampleBooks noGlobals
                               (fun _ => Document (Some [])) (1 # 2) (1 # 2)
                               constructor))
         = verses constructor).
Proof.
  apply (load_fails_on_missing_data sampleBooks noGlobals
           (fun _ => Document (Some [])) (1 # 2) (1 # 2) constructor).
  right. right. right. reflexivity.
Defined.

(** When the first load succeeds, connectedCallback returns with the game
    started on the loaded pool: the state is [started pool r3] for [pool]
    the verses loaded, with the timer running and the clock at 180. *)
Theorem connected_starts_on_loaded_pool books globalThis network r1 r2 r3
  (s1 : state) :
  loadVersesTry books network r1 r2 constructor = Returned tt s1 ->
  connectedCallback books globalThis network r1 r2 r3 constructor
  = Returned tt (started (verses s1) r3)
  /\ timerRunning (started (verses s1) r3) = true
  /\ timeLeft (started (verses s1) r3) = 180
  /\ currentVerse (started (verses s1) r3)
     = arrayGet (verses s1) (randomIndex r3 (length (verses s1))).
Proof.
  intros R.
  destruct (loadVersesTry_returns _ _ _ _ _ _ R)
    as (bk & id & chapters & chapter & name & _ & _ & _ & _ & _ & E).
  subst s1. cbn [verses set_verses].
  unfold connectedCallback, bind, loadVerses, tryCatch. rewrite R.
  unfold started, startGame, bind, assign. rewrite nextVerse_returns.
  repeat split.
Qed.

Lemma connected_starts_on_loaded_pool_witness :
  let s1 := stateAfter (loadVersesTry sampleBooks sampleNetwork 0 0 constructor) in
  connectedCallback sampleBooks noGlobals sampleNetwork 0 0 (1 # 2) constructor
  = Returned tt (started (verses s1) (1 # 2))
  /\ timerRunning (started (verses s1) (1 # 2)) = true
  /\ timeLeft (started (verses s1) (1 # 2)) = 180
  /\ currentVerse (started (verses s1) (1 # 2))
     = arrayGet (verses s1) (randomIndex (1 # 2) (length (verses s1))).
Proof.
  apply (connected_starts_on_loaded_pool sampleBooks noGlobals sampleNetwork
           0 0 (1 # 2)).
  reflexivity.
Defined.

Section Stopped.

Variable books : list jsval.
Variable globalThis : string -> option jsval.

Lemma step_stopped (e : event) (s : state) :
  timerRunning s = false ->
  timerRunning (step books globalThis e s) = false
  /\ timeLeft (step books globalThis e s) = timeLeft s
  /\ (isEndGame e = false ->
      gameEnded (step books globalThis e s) = gameEnded s).
Proof.
  intros R. step_cases e s; cbn [isEndGame]; repeat split;
    congruence || discriminate.
Qed.

Lemma run_stopped (es : list event) (s : state) :
  timerRunning s = false ->
  timerRunning (run books globalThis es s) = false
  /\ timeLeft (run books globalThis es s) = timeLeft s
  /\ (endedByTimerOnly es ->
      gameEnded (run books globalThis es s) = gameEnded s).
Proof.
  revert s. unfold endedByTimerOnly.
  induction es as [ | e es IH]; intros s R; cbn [run forallb].
  - repeat split. exact R.
  - destruct (step_stopped e s R) as (R' & T' & G').
    destruct (IH _ R') as (R2 & T2 & G2).
    repeat split; [ exact R2 | congruence | ].
    intros NE. apply andb_true_iff in NE as [N1 N2].
    apply negb_true_iff in N1. rewrite (G2 N2). now apply G'.
Qed.

(** When the first load fails on a page with no global named randomBB,
    connectedCallback throws the ReferenceError before startGame: the timer
    is never started, and whatever events follow the clock stays at 180,
    and the game does not end unless endGame is called from outside. *)
Theorem failed_load_never_starts network r1 r2 r3 (e : error) (s1 : state) :
  globalThis "randomBB" = None ->
  loadVersesTry books network r1 r2 constructor = Thrown e s1 ->
  let s := stateAfter
             (connectedCallback books globalThis network r1 r2 r3 constructor) in
  threw (connectedCallback books globalThis network r1 r2 r3 constructor)
  = Some ReferenceError
  /\ forall es,
       timerRunning (run books globalThis es s) = false
       /\ timeLeft (run books globalThis es s) = 180
       /\ (endedByTimerOnly es -> gameEnded (run books globalThis es s) = false).
Proof.
  intros G F s.
  destruct (loadVerses_failure_escapes books globalThis network r1 r2 _ _ _ G F)
    as [L _].
  assert (C : connectedCallback books globalThis network r1 r2 r3 constructor
              = Thrown ReferenceError (logged (LogLoadFailed e) constructor)).
  { unfold connectedCallback, bind. now rewrite L. }
  unfold s. rewrite C. split; [ reflexivity | ].
  intros es. apply (run_stopped es). reflexivity.
Qed.


End Stopped.

Lemma failed_load_never_starts_witness :
  let s := stateAfter
             (connectedCallback sampleBooks noGlobals offline 0 0 0 constructor) in
  threw (connectedCallback sampleBooks noGlobals offline 0 0 0 constructor)
  = Some ReferenceError
  /\ forall es,
       timerRunning (run sampleBooks noGlobals es s) = false
       /\ timeLeft (run sampleBooks noGlobals es s) = 180
       /\ (endedByTimerOnly es -> gameEnded (run sampleBooks noGlobals es s) = false).
Proof.
  apply (failed_load_never_starts sampleBooks noGlobals offline 0 0 0
           TypeError constructor).
  - reflexivity.
  - reflexivity.
Defined.


Lemma refill_touches_pool_only_witness :
  let s := stateAfter (skipVerse (started [genesis_1_1] 0)) in
  let s' := stateAfter (updated true sampleBooks noGlobals sampleNetwork 0 0 s) in
  length (verses s') = 2%nat
  /\ currentVerse s' = Some genesis_1_1 /\ feedbackStatus s' = Skipped
  /\ timeLeft s' = 180.
Proof.
  split; [ reflexivity | ].
  destruct (refill_touches_pool_only sampleBooks noGlobals sampleNetwork 0 0 true
              (stateAfter (skipVerse (started [genesis_1_1] 0))))
    as (C & _ & T & _ & St & _).
  cbv zeta. rewrite C, St, T. repeat split.
Defined.

(** ** Skipping and guessing, closer *)

(** In an open round with a current verse skipVerse returns with status
    'skipped', the book of the verse in the message and the feedback shown
    at once, nothing queued, score, clock and verse as they were. With no
    current verse it throws a TypeError after it has set the status: the
    status is 'skipped' with no feedback shown and the old message. *)
Theorem skipVerse_shows_feedback_at_once (s : state) :
  feedbackVisible s = false -> gameEnded s = false ->
  let s' := stateAfter (skipVerse s) in
  feedbackStatus s' = Skipped
  /\ score s' = score s /\ timeLeft s' = timeLeft s
  /\ currentVerse s' = currentVerse s /\ deferred s' = deferred s
  /\ (forall v, currentVerse s = Some v ->
        threw (skipVerse s) = None
        /\ feedbackVisible s' = true
        /\ feedbackMessage s' = MsgSkipped (book v))
  /\ (currentVerse s = None ->
        threw (skipVerse s) = Some TypeError
        /\ feedbackVisible s' = false
        /\ feedbackMessage s' = feedbackMessage s).
Proof.
  intros Vis End. js_unfold. rewrite Vis, End. cbn.
  destruct (currentVerse s) as [v | ] eqn:V; cbn;
    repeat split; try assumption; try discriminate;
    intros; try congruence.
Qed.

Lemma skipVerse_shows_feedback_at_once_witness :
  let s := stateAfter (nextVerse 0 constructor) in
  feedbackStatus (stateAfter (skipVerse s)) = Skipped
  /\ threw (skipVerse s) = Some TypeError
  /\ feedbackVisible (stateAfter (skipVerse s)) = false.
Proof.
  destruct (skipVerse_shows_feedback_at_once (stateAfter (nextVerse 0 constructor))
              eq_refl eq_refl) as (St & _ & _ & _ & _ & _ & N).
  destruct (N eq_refl) as (T & V & _).
  cbv zeta. split; [ exact St | split; [ exact T | exact V ] ].
Defined.

(** A guess that is taken does not show its feedback itself: after
    submitGuess feedbackVisible is still false and the callback is queued;
    once the queued callbacks have run the feedback is visible, and a
    further submitGuess or skipVerse changes nothing. *)
Theorem feedback_waits_for_update_complete (s : state) (v : verse)
  (b raw : string) :
  feedbackVisible s = false -> gameEnded s = false ->
  currentVerse s = Some v -> book v = Str b ->
  JsString.trim raw <> EmptyString ->
  let s1 := stateAfter (submitGuess (Some raw) s) in
  let s2 := stateAfter (runDeferred s1) in
  feedbackVisible s1 = false
  /\ deferred s1 = (deferred s ++ [RevealFeedback])%list
  /\ feedbackVisible s2 = true /\ deferred s2 = []
  /\ feedbackStatus s2 = feedbackStatus s1 /\ score s2 = score s1
  /\ (forall input, submitGuess input s2 = Returned tt s2)
  /\ skipVerse s2 = Returned tt s2.
Proof.
  intros Vis End V B T s1 s2.
  assert (G : feedbackVisible s || gameEnded s = false) by now rewrite Vis, End.
  assert (E1 : feedbackVisible s1 = false
               /\ deferred s1 = (deferred s ++ [RevealFeedback])%list).
  { unfold s1. rewrite (submitGuess_compared raw s v b G T V B).
    destruct (String.eqb _ _); cbn; now split. }
  destruct E1 as [V1 D1].
  assert (P : existsb isReveal (deferred s1) = true).
  { rewrite D1, existsb_app. cbn. apply orb_true_r. }
  assert (E2 : s2 = set_feedbackVisible true (set_deferred [] s1)).
  { unfold s2. rewrite runDeferred_returns, P. reflexivity. }
  repeat split; try assumption; try (rewrite E2; reflexivity).
Qed.

Lemma feedback_waits_for_update_complete_witness :
  let s1 := stateAfter (submitGuess (Some "Exodus") (started [genesis_1_1] 0)) in
  let s2 := stateAfter (runDeferred s1) in
  feedbackVisible s1 = false
  /\ deferred s1 = (deferred (started [genesis_1_1] 0) ++ [RevealFeedback])%list
  /\ feedbackVisible s2 = true /\ deferred s2 = []
  /\ feedbackStatus s2 = feedbackStatus s1 /\ score s2 = score s1
  /\ (forall input, submitGuess input s2 = Returned tt s2)
  /\ skipVerse s2 = Returned tt s2.
Proof.
  apply (feedback_waits_for_update_complete (started [genesis_1_1] 0)
           genesis_1_1 "Genesis" "Exodus").
  - reflexivity.
  - reflexivity.
  - reflexivity.
  - reflexivity.
  - vm_compute. discriminate.
Defined.

(** The guard of submitGuess looks at feedbackVisible, which a guess sets
    only in its queued callback: a second right guess made before the
    callbacks run is taken too, and the score goes up by 2 for one verse;
    made after they have run it changes nothing. *)
Theorem second_guess_before_update_counts (s : state) (v : verse)
  (b raw : string) :
  feedbackVisible s = false -> gameEnded s = false ->
  currentVerse s = Some v -> book v = Str b ->
  JsString.trim raw <> EmptyString ->
  equalUpToCase (JsString.trim raw) b ->
  let s1 := stateAfter (submitGuess (Some raw) s) in
  score s1 = score s + 1
  /\ score (stateAfter (submitGuess (Some raw) s1)) = score s + 2
  /\ score (stateAfter (submitGuess (Some raw) (stateAfter (runDeferred s1))))
     = score s + 1.
Proof.
  intros Vis End V B T C s1.
  assert (G : feedbackVisible s || gameEnded s = false) by now rewrite Vis, End.
  apply toLowerCase_equalUpToCase in C. apply String.eqb_eq in C.
  pose proof (submitGuess_compared raw s v b G T V B) as R1. rewrite C in R1.
  assert (E1 : s1 = set_deferred (deferred s ++ [RevealFeedback])
                      (set_feedbackMessage MsgCorrect
                         (set_feedbackStatus Correct (set_score (score s + 1) s)))).
  { unfold s1. rewrite R1. reflexivity. }
  assert (G1 : feedbackVisible s1 || gameEnded s1 = false)
    by (rewrite E1; exact G).
  assert (V1 : currentVerse s1 = Some v) by (rewrite E1; exact V).
  pose proof (submitGuess_compared raw s1 v b G1 T V1 B) as R2. rewrite C in R2.
  split; [ rewrite E1; reflexivity | ].
  split; [ rewrite R2, E1; cbn; lia | ].
  rewrite guarded_submitGuess.
  - rewrite runDeferred_returns.
    destruct (existsb isReveal (deferred s1)); rewrite E1; reflexivity.
  - rewrite runDeferred_returns.
    assert (P : existsb isReveal (deferred s1) = true).
    { rewrite E1. cbn [deferred set_deferred]. rewrite existsb_app. cbn.
      apply orb_true_r. }
    rewrite P. reflexivity.
Qed.

Lemma second_guess_before_update_counts_witness :
  let s1 := stateAfter (submitGuess (Some "genesis") (started [genesis_1_1] 0)) in
  score s1 = 1
  /\ score (stateAfter (submitGuess (Some "genesis") s1)) = 2
  /\ score (stateAfter (submitGuess (Some "genesis") (stateAfter (runDeferred s1))))
     = 1.
Proof.
  refine (second_guess_before_update_counts (started [genesis_1_1] 0)
            genesis_1_1 "Genesis" "genesis" eq_refl eq_refl eq_refl eq_refl _ _).
  - vm_compute. discriminate.
  - apply toLowerCase_equalUpToCase. reflexivity.
Defined.

(** ** More on runs *)

Lemma submits_cons (e : event) (es : list event) :
  Z.of_nat (submits (e :: es))
  = (if isSubmitGuess e then 1 else 0) + Z.of_nat (submits es).
Proof. unfold submits. cbn [filter]. destruct (isSubmitGuess e); cbn [length]; lia. Qed.

Lemma trimEnd_idempotent (s : string) :
  JsString.trimEnd (JsString.trimEnd s) = JsString.trimEnd s.
Proof.
  induction s as [ | c s IH]; cbn; [ reflexivity | ].
  destruct (JsString.trimEnd s) as [ | d t] eqn:E.
  - destruct (JsString.isWhiteSpace c) eqn:W; cbn; [ reflexivity | ].
    now rewrite W.
  - remember (String d t) as u eqn:U.
    cbn [JsString.trimEnd]. rewrite IH. now subst u.
Qed.

Lemma trimEnd_keeps_head (c : ascii) (s : string) :
  JsString.isWhiteSpace c = false ->
  exists t, JsString.trimEnd (String c s) = String c t.
Proof.
  intros W. cbn. destruct (JsString.trimEnd s) as [ | d t].
  - rewrite W. now eexists.
  - now eexists.
Qed.

Lemma trimStart_head (s : string) :
  JsString.trimStart s = EmptyString
  \/ exists c t, JsString.trimStart s = String c t
                 /\ JsString.isWhiteSpace c = false.
Proof.
  induction s as [ | c s IH]; cbn; [ now left | ].
  destruct (JsString.isWhiteSpace c) eqn:W; [ exact IH | ].
  right. now exists c, s.
Qed.

Lemma trim_idempotent (s : string) :
  JsString.trim (JsString.trim s) = JsString.trim s.
Proof.
  unfold JsString.trim.
  destruct (trimStart_head s) as [-> | (c & t & -> & W)]; [ reflexivity | ].
  destruct (trimEnd_keeps_head c t W) as [u E]. rewrite E.
  cbn [JsString.trimStart]. rewrite W, <- E. apply trimEnd_idempotent.
Qed.

(** submitGuess does with an input what it does with the input trimmed:
    white space around a guess never matters. *)
Theorem submitGuess_trims (raw : string) (s : state) :
  submitGuess (Some raw) s = submitGuess (Some (JsString.trim raw)) s.
Proof.
  unfold submitGuess. cbn [option_map]. now rewrite trim_idempotent.
Qed.

Section Games.

Variable books : list jsval.
Variable globalThis : string -> option jsval.

Lemma step_score_bounds (e : event) (s : state) :
  score s <= score (step books globalThis e s)
             <= score s + (if isSubmitGuess e then 1 else 0).
Proof. step_cases e s; cbn [isSubmitGuess]; lia. Qed.

Lemma run_score_bounds (es : list event) (s : state) :
  score s <= score (run books globalThis es s) <= score s + Z.of_nat (submits es).
Proof.
  revert s. induction es as [ | e es IH]; intros s.
  - cbn. lia.
  - cbn [run]. rewrite submits_cons.
    pose proof (step_score_bounds e s). pose proof (IH (step books globalThis e s)).
    lia.
Qed.

(** The score of a started game is never negative and never more than the
    number of submitGuess calls so far. *)
Theorem score_bounded_by_guesses (pool : list verse) (r : Q) (es : list event) :
  0 <= score (run books globalThis es (started pool r)) <= Z.of_nat (submits es).
Proof.
  pose proof (run_score_bounds es (started pool r)) as B.
  change (score (started pool r)) with 0 in B. lia.
Qed.

Lemma step_still_running (e : event) (s : state) :
  timerRunning (step books globalThis e s) = true ->
  timerRunning s = true
  /\ timeLeft (step books globalThis e s)
     = timeLeft s - (if isTick e then 1 else 0).
Proof.
  step_cases e s; cbn [isTick]; intros R; try discriminate; split;
    try assumption; try congruence; lia.
Qed.

Lemma run_still_running (es : list event) (s : state) :
  timerRunning (run books globalThis es s) = true ->
  timerRunning s = true
  /\ timeLeft (run books globalThis es s) = timeLeft s - Z.of_nat (ticks es).
Proof.
  revert s. induction es as [ | e es IH]; intros s R.
  - cbn in *. split; [ exact R | lia ].
  - cbn [run] in *. destruct (IH _ R) as [R' T'].
    destruct (step_still_running e s R') as [R0 T0].
    split; [ exact R0 | ]. rewrite T', T0, ticks_cons. lia.
Qed.

Lemma step_stopped_ended (e : event) (s : state) :
  (timerRunning s = false -> gameEnded s = true) ->
  timerRunning (step books globalThis e s) = false ->
  gameEnded (step books globalThis e s) = true.
Proof.
  intros I. step_cases e s; intros R; try reflexivity; try (now apply I);
    congruence.
Qed.

Lemma run_stopped_ended (es : list event) (s : state) :
  (timerRunning s = false -> gameEnded s = true) ->
  timerRunning (run books globalThis es s) = false ->
  gameEnded (run books globalThis es s) = true.
Proof.
  revert s. induction es as [ | e es IH]; intros s I; cbn [run]; [ exact I | ].
  apply IH. now apply step_stopped_ended.
Qed.

(** However the events interleave, once a started game has seen 181 ticks
    it has ended, its interval is cleared and its clock is at 0; and when
    endGame is called by the timer only, the game has ended exactly when
    there have been 181 ticks. *)
Theorem game_over_after_181_ticks (pool : list verse) (r : Q) (es : list event) :
  let s := run books globalThis es (started pool r) in
  ((181 <= ticks es)%nat ->
   gameEnded s = true /\ timerRunning s = false /\ timeLeft s = 0)
  /\ (endedByTimerOnly es -> (gameEnded s = true <-> (181 <= ticks es)%nat)).
Proof.
  intros s.
  assert (Late : (181 <= ticks es)%nat ->
                 gameEnded s = true /\ timerRunning s = false /\ timeLeft s = 0).
  { intros N.
    assert (R : timerRunning s = false).
    { destruct (timerRunning s) eqn:R; [ | reflexivity ].
      destruct (run_still_running es (started pool r) R) as [_ T].
      pose proof (run_timeLeft_nonneg books globalThis es (started pool r)) as P.
      fold s in T, P. change (timeLeft (started pool r)) with 180 in T, P. lia. }
    split; [ | split; [ exact R | ] ].
    - apply run_stopped_ended; [ discriminate | exact R ].
    - unfold s. rewrite run_clock; [ | cbn; lia | now left ].
      change (timeLeft (started pool r)) with 180. lia. }
  split; [ exact Late | ].
  intros NE. split; [ | intros N; now apply Late ].
  intros G. destruct (Nat.le_gt_cases 181 (ticks es)) as [ | Few]; [ assumption | ].
  destruct (run_before_expiry books globalThis es (started pool r))
    as (G' & _); try reflexivity; try assumption.
  - discriminate.
  - change (timeLeft (started pool r)) with 180. lia.
  - fold s in G'. congruence.
Qed.

End Games.

Lemma game_over_after_181_ticks_witness :
  let es := SkipVerse :: repeat Tick 100 ++ [NextVerse 0] ++ repeat Tick 85 in
  let s := run sampleBooks noGlobals es (started [genesis_1_1] 0) in
  gameEnded s = true /\ timerRunning s = false /\ timeLeft s = 0.
Proof.
  apply (game_over_after_181_ticks sampleBooks noGlobals [genesis_1_1] 0
           (SkipVerse :: repeat Tick 100 ++ [NextVerse 0] ++ repeat Tick 85)).
  apply Nat.leb_le. vm_compute. reflexivity.
Defined.

(** ** A game on a playable pool *)

Section FixedPool.

Variable books : list jsval.
Variable globalThis : string -> option jsval.
Variable pool : list verse.
Hypothesis pool_playable : playable pool.

Lemma step_keeps_drawn (e : event) (s : state) :
  drawnFrom pool s -> onFixedPool e -> drawnFrom pool (step books globalThis e s).
Proof.
  unfold drawnFrom. intros [P C] F.
  step_cases e s; try (split; assumption); try contradiction.
  split; [ exact P | ]. destruct F as [F0 F1]. rewrite P.
  destruct pool_playable as [NE _].
  destruct (arrayGet_in_range pool (randomIndex r (length pool)))
    as (v & Get & Mem).
  - apply randomIndex_range; try assumption.
    destruct pool; [ congruence | cbn; lia ].
  - now exists v.
Qed.

Lemma thrownBy_drawn (e : event) (s : state) :
  drawnFrom pool s -> onFixedPool e -> thrownBy books globalThis e s = None.
Proof.
  unfold drawnFrom. intros [P (v & V & Mem)] F.
  destruct pool_playable as [_ Names]. destruct (Names v Mem) as [b B].
  destruct e as [ | r | input | | | | network r1 r2]; cbn [thrownBy].
  - destruct (timerRunning s); [ | reflexivity ].
    unfold timerCallback, endGame, bind, this, assign.
    destruct (0 <? timeLeft s); reflexivity.
  - now rewrite nextVerse_returns.
  - destruct (feedbackVisible s || gameEnded s) eqn:G.
    + now rewrite guarded_submitGuess.
    + destruct input as [raw | ].
      * destruct (JsString.trim raw) as [ | c t] eqn:T.
        -- unfold submitGuess, bind, this, ret. rewrite G. cbn [option_map].
           now rewrite T.
        -- rewrite (submitGuess_compared raw s v b G); try assumption;
             [ reflexivity | congruence ].
      * unfold submitGuess, bind, this, ret. now rewrite G.
  - destruct (feedbackVisible s || gameEnded s) eqn:G.
    + now rewrite guarded_skipVerse.
    + js_unfold. rewrite G. cbn. now rewrite V.
  - now rewrite endGame_returns.
  - now rewrite runDeferred_returns.
  - contradiction.
Qed.

Lemma run_on_fixed_pool (es : list event) (s : state) :
  drawnFrom pool s -> Forall onFixedPool es ->
  drawnFrom pool (run books globalThis es s) /\ exceptions books globalThis es s = [].
Proof.
  revert s. induction es as [ | e es IH]; intros s D F; cbn [run exceptions].
  - now split.
  - inversion F as [ | e' es' Fe Fes ]; subst.
    pose proof (step_keeps_drawn e s D Fe) as D'.
    destruct (IH _ D' Fes) as [D2 X2].
    split; [ exact D2 | ].
    rewrite (thrownBy_drawn e s D Fe), X2.
    destruct D' as [_ (v & V & _)]. now rewrite (render_returns _ v V).
Qed.

Lemma started_drawn (r : Q) :
  (0 <= r)%Q -> (r < 1)%Q -> drawnFrom pool (started pool r).
Proof.
  intros H0 H1. unfold drawnFrom, started, startGame, bind, assign.
  rewrite nextVerse_returns. cbn. split; [ reflexivity | ].
  destruct pool_playable as [NE _].
  destruct (arrayGet_in_range pool (randomIndex r (length pool)))
    as (v & Get & Mem).
  - apply randomIndex_range; try assumption.
    destruct pool; [ congruence | cbn; lia ].
  - now exists v.
Qed.

(** On a pool that has a verse and string book names, with Math.random()
    in its range and no load replacing the pool, a started game always has
    a current verse, and it is a verse of the pool. *)
Theorem current_verse_from_pool (r : Q) (es : list event) :
  (0 <= r)%Q -> (r < 1)%Q -> Forall onFixedPool es ->
  verses (run books globalThis es (started pool r)) = pool
  /\ exists v, currentVerse (run books globalThis es (started pool r)) = Some v
               /\ In v pool.
Proof.
  intros H0 H1 F.
  apply (run_on_fixed_pool es (started pool r)); [ now apply started_drawn | exact F ].
Qed.

(** On such a pool no event handler throws and no render after an event
    throws, whatever the events are and however they interleave. *)
Theorem playable_pool_never_throws (r : Q) (es : list event) :
  (0 <= r)%Q -> (r < 1)%Q -> Forall onFixedPool es ->
  exceptions books globalThis es (started pool r) = []
  /\ threw (render (started pool r)) = None.
Proof.
  intros H0 H1 F. split.
  - apply (run_on_fixed_pool es (started pool r)); [ now apply started_drawn | exact F ].
  - destruct (started_drawn r H0 H1) as [_ (v & V & _)].
    now rewrite (render_returns _ v V).
Qed.

End FixedPool.

Lemma genesis_pool_playable : playable [genesis_1_1].
Proof.
  split; [ discriminate | ].
  intros v [<- | []]. now exists "Genesis".
Qed.

Lemma sample_events_on_fixed_pool :
  Forall onFixedPool
    [SubmitGuess (Some "exodus"); SkipVerse; UpdateComplete; NextVerse (1 # 2);
     Tick; SkipVerse; EndGame; SubmitGuess None].
Proof.
  repeat constructor; vm_compute; discriminate.
Qed.

Lemma current_verse_from_pool_witness :
  let s := run sampleBooks noGlobals
             [SubmitGuess (Some "exodus"); SkipVerse; UpdateComplete;
              NextVerse (1 # 2); Tick; SkipVerse; EndGame; SubmitGuess None]
             (started [genesis_1_1] 0) in
  verses s = [genesis_1_1]
  /\ exists v, currentVerse s = Some v /\ In v [genesis_1_1].
Proof.
  apply (current_verse_from_pool sampleBooks noGlobals [genesis_1_1]
           genesis_pool_playable 0 _).
  - vm_compute. discriminate.
  - reflexivity.
  - exact sample_events_on_fixed_pool.
Defined.

Lemma playable_pool_never_throws_witness :
  exceptions sampleBooks noGlobals
    [SubmitGuess (Some "exodus"); SkipVerse; UpdateComplete; NextVerse (1 # 2);
     Tick; SkipVerse; EndGame; SubmitGuess None]
    (started [genesis_1_1] 0) = []
  /\ threw (render (started [genesis_1_1] 0)) = None.
Proof.
  apply (playable_pool_never_throws sampleBooks noGlobals [genesis_1_1]
           genesis_pool_playable 0 _).
  - vm_compute. discriminate.
  - reflexivity.
  - exact sample_events_on_fixed_pool.
Defined.

(** An empty pool is the other case: the render after the first nextVerse
    throws. *)
Example empty_pool_throws :
  exceptions sampleBooks noGlobals [SkipVerse] (started [] 0)
  = [TypeError; TypeError]
  /\ threw (render (started [] 0)) = Some TypeError.
Proof. split; reflexivity. Qed.

(** ** One round after another *)

(** A guess taken in an open round, its feedback shown, then nextVerse:
    the round is open again, with no status and no message, the clock and
    the pool untouched, the score one more exactly when the guess was the
    book up to letter case, and, the pool having a verse and Math.random()
    being in its range, a current verse from the pool. *)
Theorem next_round_is_open (s : state) (v : verse) (b raw : string) (r : Q) :
  feedbackVisible s = false -> gameEnded s = false ->
  currentVerse s = Some v -> book v = Str b ->
  JsString.trim raw <> EmptyString ->
  let s1 := stateAfter (submitGuess (Some raw) s) in
  let s2 := stateAfter (runDeferred s1) in
  let s3 := stateAfter (nextVerse r s2) in
  feedbackVisible s3 = false /\ gameEnded s3 = false
  /\ feedbackStatus s3 = StatusNone /\ feedbackMessage s3 = MsgEmpty
  /\ timeLeft s3 = timeLeft s /\ verses s3 = verses s
  /\ (equalUpToCase (JsString.trim raw) b -> score s3 = score s + 1)
  /\ (~ equalUpToCase (JsString.trim raw) b -> score s3 = score s)
  /\ (verses s <> [] -> (0 <= r)%Q -> (r < 1)%Q ->
      exists v', currentVerse s3 = Some v' /\ In v' (verses s)).
Proof.
  intros Vis End V B T s1 s2 s3.
  assert (G : feedbackVisible s || gameEnded s = false) by now rewrite Vis, End.
  pose proof (submitGuess_compared raw s v b G T V B) as R1.
  assert (F1 : gameEnded s1 = false /\ timeLeft s1 = timeLeft s
               /\ verses s1 = verses s
               /\ score s1
                  = score s
                    + (if String.eqb (JsString.toLowerCase (JsString.trim raw))
                                     (JsString.toLowerCase b)
                       then 1 else 0)).
  { unfold s1. rewrite R1. destruct (String.eqb _ _); cbn; repeat split;
      try assumption; lia. }
  destruct F1 as (G1 & T1 & P1 & S1).
  assert (F2 : gameEnded s2 = false /\ timeLeft s2 = timeLeft s
               /\ verses s2 = verses s /\ score s2 = score s1).
  { unfold s2. rewrite runDeferred_returns.
    destruct (existsb isReveal (deferred s1)); cbn; repeat split; assumption. }
  destruct F2 as (G2 & T2 & P2 & S2).
  unfold s3. rewrite nextVerse_returns. cbn.
  repeat split; try assumption.
  - intros C. apply toLowerCase_equalUpToCase in C. apply String.eqb_eq in C.
    rewrite S2, S1, C. reflexivity.
  - intros C.
    assert (N : String.eqb (JsString.toLowerCase (JsString.trim raw))
                           (JsString.toLowerCase b) = false).
    { apply not_true_is_false. intros E. apply String.eqb_eq in E.
      now apply toLowerCase_equalUpToCase in E. }
    rewrite S2, S1, N. lia.
  - intros NE H0 H1. rewrite P2.
    apply arrayGet_in_range. apply randomIndex_range; try assumption.
    destruct (verses s); [ congruence | cbn; lia ].
Qed.

Lemma next_round_is_open_witness :
  let s := started [genesis_1_1] 0 in
  let s1 := stateAfter (submitGuess (Some " genesis") s) in
  let s2 := stateAfter (runDeferred s1) in
  let s3 := stateAfter (nextVerse (1 # 2) s2) in
  feedbackVisible s3 = false /\ gameEnded s3 = false
  /\ feedbackStatus s3 = StatusNone /\ feedbackMessage s3 = MsgEmpty
  /\ timeLeft s3 = timeLeft s /\ verses s3 = verses s
  /\ (equalUpToCase (JsString.trim " genesis") "Genesis" -> score s3 = score s + 1)
  /\ (~ equalUpToCase (JsString.trim " genesis") "Genesis" -> score s3 = score s)
  /\ (verses s <> [] -> (0 <= 1 # 2)%Q -> (1 # 2 < 1)%Q ->
      exists v', currentVerse s3 = Some v' /\ In v' (verses s)).
Proof.
  apply (next_round_is_open (started [genesis_1_1] 0) genesis_1_1
           "Genesis" " genesis" (1 # 2)).
  - reflexivity.
  - reflexivity.
  - reflexivity.
  - reflexivity.
  - vm_compute. discriminate.
Defined.

(** ** What the overlay says *)

Lemma submitGuess_detail (input : option string) (s : state) :
  stateAfter (submitGuess input s) = s
  \/ feedbackVisible s || gameEnded s = false
     /\ exists v b,
          currentVerse s = Some v /\ book v = Str b
          /\ (stateAfter (submitGuess input s)
              = set_deferred (deferred s ++ [RevealFeedback])
                  (set_feedbackMessage MsgCorrect
                     (set_feedbackStatus Correct (set_score (score s + 1) s)))
              \/ stateAfter (submitGuess input s)
                 = set_deferred (deferred s ++ [RevealFeedback])
                     (set_feedbackMessage (MsgWrong (book v))
                        (set_feedbackStatus Wrong s))).
Proof.
  destruct (feedbackVisible s || gameEnded s) eqn:G.
  - left. now rewrite guarded_submitGuess.
  - destruct input as [raw | ].
    + destruct (JsString.trim raw) as [ | c t] eqn:T.
      * left. unfold submitGuess, bind, this, ret. rewrite G. cbn [option_map].
        now rewrite T.
      * destruct (currentVerse s) as [v | ] eqn:V.
        -- destruct (book v) as [ | b | props] eqn:B.
           ++ left. js_unfold. rewrite G. cbn [option_map]. rewrite T. cbn.
              rewrite V. cbn. now rewrite B.
           ++ right. split; [ reflexivity | ]. exists v, b.
              split; [ reflexivity | split; [ exact B | ] ].
              rewrite (submitGuess_compared raw s v b G); try assumption;
                [ | congruence ].
              rewrite B. destruct (String.eqb _ _); [ left | right ];
                destruct s; cbn in *; subst; reflexivity.
           ++ left. js_unfold. rewrite G. cbn [option_map]. rewrite T. cbn.
              rewrite V. cbn. now rewrite B.
        -- left. js_unfold. rewrite G. cbn [option_map]. rewrite T. cbn.
           now rewrite V.
    + left. unfold submitGuess, bind, this, ret. now rewrite G.
Qed.

Lemma skipVerse_detail (s : state) :
  stateAfter (skipVerse s) = s
  \/ feedbackVisible s || gameEnded s = false
     /\ (currentVerse s = None
         /\ stateAfter (skipVerse s) = set_feedbackStatus Skipped s
         \/ exists v,
             currentVerse s = Some v
             /\ stateAfter (skipVerse s)
                = set_feedbackVisible true
                    (set_feedbackMessage (MsgSkipped (book v))
                       (set_feedbackStatus Skipped s))).
Proof.
  js_unfold.
  destruct (feedbackVisible s || gameEnded s) eqn:G; [ now left | ].
  right. split; [ reflexivity | ]. cbn.
  destruct (currentVerse s) as [v | ]; [ right; now exists v | now left ].
Qed.

Section Messages.

Variable books : list jsval.
Variable globalThis : string -> option jsval.

Lemma step_keeps_says (e : event) (s : state) :
  says s -> says (step books globalThis e s).
Proof.
  unfold says. intros M.
  destruct e as [ | r | input | | | | network r1 r2]; cbn [step].
  - destruct (timerRunning s); [ | exact M ].
    destruct (timerCallback_cases s) as [[_ ->] | [_ ->]]; setters;
      [ exact M | now split ].
  - rewrite nextVerse_returns. reflexivity.
  - destruct (submitGuess_detail input s)
      as [-> | [G (v & b & V & B & [-> | ->])]]; setters;
      [ exact M | split; [ reflexivity | now exists v, b ] | now exists v ].
  - destruct (skipVerse_detail s) as [-> | [G [[V ->] | (v & V & ->)]]]; setters;
      [ exact M | now rewrite V | now rewrite V ].
  - rewrite endGame_returns. now split.
  - rewrite runDeferred_returns.
    destruct (existsb isReveal (deferred s)); setters; exact M.
  - destruct (loadVerses_frame books globalThis network r1 r2 s)
      as (vs & log & ->); setters; exact M.
Qed.

Lemma run_keeps_says (es : list event) (s : state) :
  says s -> says (run books globalThis es s).
Proof.
  revert s. induction es as [ | e es IH]; intros s M; cbn [run]; [ exact M | ].
  apply IH. now apply step_keeps_says.
Qed.

(** In every state that events lead to from a started game the message
    goes with the status: none with no status; 'correct' only for a
    current verse that names its book; for 'wrong', and for 'skipped' with
    a current verse, the book of the verse on display; and for 'ended' the
    score the component has, the game being ended. *)
Theorem feedback_message_matches_status (pool : list verse) (r : Q)
  (es : list event) :
  says (run books globalThis es (started pool r)).
Proof. apply run_keeps_says. reflexivity. Qed.

End Messages.

(** ** Drawing and showing verses *)

Lemma Qfloor_between (x : Q) (i : Z) :
  (inject_Z i <= x)%Q -> (x < inject_Z (i + 1))%Q -> Qfloor x = i.
Proof.
  intros Lo Hi.
  pose proof (Qfloor_le x) as F1. pose proof (Qlt_floor x) as F2.
  assert (A : i < Qfloor x + 1).
  { rewrite Zlt_Qlt. now apply Qle_lt_trans with x. }
  assert (B : Qfloor x < i + 1).
  { rewrite Zlt_Qlt. now apply Qle_lt_trans with x. }
  lia.
Qed.

Lemma slot_middle (i n : nat) :
  (i < n)%nat ->
  let r := (2 * Z.of_nat i + 1 # 2 * Pos.of_nat n)%Q in
  (0 <= r)%Q /\ (r < 1)%Q
  /\ (r * inject_Z (Z.of_nat n) == inject_Z (Z.of_nat i) + (1 # 2))%Q.
Proof.
  intros H r.
  assert (N : Z.pos (Pos.of_nat n) = Z.of_nat n).
  { destruct n as [ | n]; [ lia | ].
    now rewrite <- Pos.of_nat_succ, Zpos_P_of_succ_nat, Nat2Z.inj_succ. }
  unfold r, Qle, Qlt, Qeq, Qmult, Qplus, inject_Z. cbn [Qnum Qden].
  rewrite ?Pos2Z.inj_mul, ?N. repeat split; nia.
Qed.

(** nextVerse can draw every verse of the pool, and not by a single value
    of Math.random() only: the verse at place [i] of [n] is drawn by every
    [r] with i + 1/4 <= r * n <= i + 3/4, the middle half of its share of
    the unit interval, which is far enough from the next whole number for
    the rounding of the product not to matter. Every such [r] lies in the
    range of Math.random(), 0 <= r < 1, and there are such [r],
    (2 i + 1) / (2 n) for one. *)
Theorem every_verse_can_be_drawn (s : state) (i : nat) (v : verse) :
  nth_error (verses s) i = Some v ->
  let n := inject_Z (Z.of_nat (length (verses s))) in
  (forall r : Q,
     (inject_Z (Z.of_nat i) + (1 # 4) <= r * n)%Q ->
     (r * n <= inject_Z (Z.of_nat i) + (3 # 4))%Q ->
     currentVerse (stateAfter (nextVerse r s)) = Some v)
  /\ (forall r : Q,
        (inject_Z (Z.of_nat i) + (1 # 4) <= r * n)%Q ->
        (r * n <= inject_Z (Z.of_nat i) + (3 # 4))%Q ->
        (0 <= r)%Q /\ (r < 1)%Q)
  /\ exists r : Q,
       (inject_Z (Z.of_nat i) + (1 # 4) <= r * n)%Q
       /\ (r * n <= inject_Z (Z.of_nat i) + (3 # 4))%Q.
Proof.
  intros N n.
  assert (L : (i < length (verses s))%nat) by (apply nth_error_Some; congruence).
  split; [ | split ].
  - intros r Lo Hi.
    rewrite nextVerse_returns. cbn [stateAfter currentVerse].
    assert (F : randomIndex r (length (verses s)) = Z.of_nat i).
    { unfold randomIndex. fold n. apply Qfloor_between.
      - apply Qle_trans with (inject_Z (Z.of_nat i) + (1 # 4))%Q; [ | exact Lo ].
        rewrite <- (Qplus_0_r (inject_Z (Z.of_nat i))) at 1.
        apply Qplus_le_r. discriminate.
      - apply Qle_lt_trans with (inject_Z (Z.of_nat i) + (3 # 4))%Q; [ exact Hi | ].
        rewrite inject_Z_plus. apply Qplus_lt_r. reflexivity. }
    rewrite F. unfold arrayGet.
    destruct (Z.ltb_spec (Z.of_nat i) 0); [ lia | ]. now rewrite Nat2Z.id.
  - intros [a b] Lo Hi. unfold n in Lo, Hi.
    unfold Qle, Qlt, Qmult, Qplus, inject_Z in *. cbn [Qnum Qden] in *.
    assert (M : Z.of_nat i + 1 <= Z.of_nat (length (verses s))) by lia.
    split; nia.
  - destruct (slot_middle i (length (verses s)) L) as (_ & _ & E).
    eexists. unfold n. rewrite E. split.
    + apply Qplus_le_r. discriminate.
    + apply Qplus_le_r. discriminate.
Qed.

Lemma every_verse_can_be_drawn_witness :
  let s := set_verses [emptyObject; genesis_1_1; emptyObject] constructor in
  currentVerse (stateAfter (nextVerse (1 # 2) s)) = Some genesis_1_1.
Proof.
  refine (proj1 (every_verse_can_be_drawn
                   (set_verses [emptyObject; genesis_1_1; emptyObject] constructor)
                   1 genesis_1_1 eq_refl) (1 # 2) _ _).
  - vm_compute. discriminate.
  - vm_compute. discriminate.
Defined.

(** A verse of a loaded pool on display: the chapter and verse slots hold
    its numbers in decimal, never the dot that stands for a missing
    number, and the text slot holds the text in double quotes, or
    'Loading verse...' when the text of the verse is empty. *)
Theorem loaded_verse_display books network r1 r2 (s s' st : state)
  (i : nat) (v : verse) :
  loadVersesTry books network r1 r2 s = Returned tt s' ->
  nth_error (verses s') i = Some v ->
  currentVerse st = Some v ->
  exists vw c txt,
    render st = Returned vw st
    /\ 1 <= c /\ chapterNumber v = Some c /\ text v = Str txt
    /\ chapterText vw = numberToString c
    /\ verseText vw = numberToString (Z.of_nat i + 1)
    /\ quoteText vw
       = (if JsString.truthy txt then doubleQuote ++ txt ++ doubleQuote
          else "Loading verse...").
Proof.
  intros R N V.
  destruct (loadVersesTry_returns _ _ _ _ _ _ R)
    as (bk & id & chapters & chapter & name & _ & _ & _ & _ & Ch & ->).
  apply arrayGet_Some in Ch as [Range _].
  cbn [verses set_verses] in N. rewrite mapWithIndex_nth in N.
  destruct (nth_error chapter i) as [txt | ]; [ | discriminate ].
  cbn [option_map] in N. injection N as <-.
  eexists. exists (randomIndex r2 (length chapters) + 1), txt.
  rewrite (render_returns st _ V).
  split; [ reflexivity | ].
  cbn [chapterNumber verseNumber text chapterText verseText quoteText].
  rewrite ?Z.add_0_l.
  split; [ lia | ]. split; [ reflexivity | ]. split; [ reflexivity | ].
  unfold numberSlot, truthyNumber, textSlot, truthyValue, toString.
  split; [ | split ].
  - destruct (Z.eqb_spec (randomIndex r2 (length chapters) + 1) 0);
      [ lia | reflexivity ].
  - destruct (Z.eqb_spec (Z.of_nat i + 1) 0); [ lia | reflexivity ].
  - reflexivity.
Qed.

Lemma loaded_verse_display_witness :
  let s' := stateAfter (loadVersesTry sampleBooks sampleNetwork 0 0 constructor) in
  let st := stateAfter (nextVerse (1 # 2) s') in
  exists vw, render st = Returned vw st
             /\ chapterText vw = "1" /\ verseText vw = "2"
             /\ quoteText vw = doubleQuote ++ "And the earth was..." ++ doubleQuote.
Proof.
  intros s' st.
  destruct (loaded_verse_display sampleBooks sampleNetwork 0 0 constructor s' st 1
              {| text := Str "And the earth was..."; book := Str "Genesis";
                 chapterNumber := Some 1; verseNumber := Some 2;
                 language := Some "en" |} eq_refl eq_refl eq_refl)
    as (vw & c & txt & R & _ & C & T & Ct & Vt & Qt).
  injection C as <-. injection T as <-.
  exists vw. split; [ exact R | split; [ exact Ct | split; [ exact Vt | exact Qt ] ] ].
Defined.
